(** * GetLyricSunoFixTime: the subtitle exporter of [index.js]

    A shallow embedding of [index.js] and the properties its specification
    states about it.

    - Part I embeds the parts of the JavaScript runtime the script calls
      (numbers, [String], [padStart], [trim], [path.join], [Date]).
    - Part II embeds the script itself, function by function and under the
      names it has in the source.
    - Part III holds the vocabulary the statements are written in.
    - Part IV holds the lemmas and the theorems of the specification.
    - Part V holds further properties of the script.

    A string is held as the bytes of its UTF-8 form, so that the literals
    of the source are the literals here; where the language counts or
    classifies code units ([substring], [trim]), the bytes are read as
    characters. A JS number is an IEEE-754 double ([PrimFloat.float]);
    integers read back from a [Date] are [Z] or [NaN]. *)

From Stdlib Require Import ZArith List Ascii String Lia.
From Stdlib Require Import Floats.PrimFloat Floats.SpecFloat Floats.FloatOps.
From stdpp Require Import base list strings pretty gmap.

Local Open Scope Z_scope.

(* ================================================================== *)
(** * Part I: the runtime *)
(* ================================================================== *)

(** The line feed, written [\n] in the source. *)
Definition LF_char : ascii := ascii_of_nat 10.
Definition LF : string := String LF_char "".

(** ** Numbers *)

(** What the getters of a [Date] hand out, and what a time value is: an
    integer or NaN. *)
Inductive intnum : Type :=
  | NaN
  | Int (z : Z).

(** The mathematical value of a finite double, truncated toward zero;
    [None] for NaN and the infinities (the "is not finite" test of
    MakeTime). *)
Definition truncate (x : float) : option Z :=
  match Prim2SF x with
  | S754_nan => None
  | S754_infinity _ => None
  | S754_zero _ => Some 0
  | S754_finite s m e =>
      let mag := match e with
                 | Zneg k => Z.shiftr (Zpos m) (Zpos k)
                 | _ => Z.shiftl (Zpos m) e
                 end in
      Some (if s then - mag else mag)
  end.

(** [String(n)] for an integer or NaN. *)
Definition ToString (n : intnum) : string :=
  match n with
  | NaN => "NaN"
  | Int z => pretty z
  end.

(** [Math.floor(n / d)] for an integer [n] and a positive integer [d]. *)
Definition floor_div (n : intnum) (d : Z) : intnum :=
  match n with
  | NaN => NaN
  | Int z => Int (z / d)
  end.

(** ** Strings *)

(** [fill n pad cur]: the first [n] bytes of [cur] followed by [pad] repeated
    for ever. *)
Fixpoint fill (n : nat) (pad cur : string) : string :=
  match n with
  | O => ""
  | S n' =>
      match cur with
      | String c r => String c (fill n' pad r)
      | EmptyString =>
          match pad with
          | String c r => String c (fill n' pad r)
          | EmptyString => ""
          end
      end
  end.

(** [s.padStart(targetLength, padString)], for strings of ASCII characters,
    one byte each: the script pads numerals with ["0"]. *)
Definition padStart (targetLength : nat) (padString s : string) : string :=
  if (targetLength <=? String.length s)%nat then s
  else fill (targetLength - String.length s) padString padString +:+ s.

(** A string from its bytes. *)
Definition utf8 (bytes : list nat) : string :=
  string_of_list_ascii (map ascii_of_nat bytes).

(** The white space and the line terminators of the language: U+0009 to
    U+000D, U+0020, U+00A0, U+1680, U+2000 to U+200A, U+2028, U+2029,
    U+202F, U+205F, U+3000 and U+FEFF. *)
Definition white_space : list string :=
  map utf8
    [[9]; [10]; [11]; [12]; [13]; [32]; [194; 160]; [225; 154; 128];
     [226; 128; 128]; [226; 128; 129]; [226; 128; 130]; [226; 128; 131];
     [226; 128; 132]; [226; 128; 133]; [226; 128; 134]; [226; 128; 135];
     [226; 128; 136]; [226; 128; 137]; [226; 128; 138];
     [226; 128; 168]; [226; 128; 169]; [226; 128; 175]; [226; 129; 159];
     [227; 128; 128]; [239; 187; 191]]%nat.

(** [s] without the prefix [p], when it starts with it. *)
Fixpoint strip_prefix (p s : string) : option string :=
  match p, s with
  | EmptyString, _ => Some s
  | String a p', String b s' => if Ascii.eqb a b then strip_prefix p' s' else None
  | String _ _, EmptyString => None
  end.

(** [s] without the first of [prefixes] that it starts with. *)
Fixpoint strip_first (prefixes : list string) (s : string) : option string :=
  match prefixes with
  | [] => None
  | p :: rest =>
      match strip_prefix p s with
      | Some r => Some r
      | None => strip_first rest s
      end
  end.

(** [s] without the [prefixes] it starts with, one after the other, [n] of
    them at most. *)
Fixpoint strip (n : nat) (prefixes : list string) (s : string) : string :=
  match n with
  | O => s
  | S n' =>
      match strip_first prefixes s with
      | Some r => strip n' prefixes r
      | None => s
      end
  end.

(** [s.trimStart()], [s.trimEnd()] and [s.trim()]: white space and line
    terminators go, at the start, at the end, at both ends. *)
Definition trimStart (s : string) : string := strip (String.length s) white_space s.

Definition trimEnd (s : string) : string :=
  String.rev (strip (String.length s) (map String.rev white_space) (String.rev s)).

Definition trim (s : string) : string := trimEnd (trimStart s).

(** [s.toLowerCase()], on the letters A to Z. The script compares the result
    with [n] and with [srt] and does nothing else with it, and no character
    other than N, S, R and T becomes one of n, s, r and t. *)
Definition lower_char (c : ascii) : ascii :=
  let n := nat_of_ascii c in
  if ((65 <=? n) && (n <=? 90))%nat then ascii_of_nat (n + 32) else c.

Fixpoint toLowerCase (s : string) : string :=
  match s with
  | String c r => String (lower_char c) (toLowerCase r)
  | EmptyString => ""
  end.

(** The characters of a string: a byte that is not a continuation byte
    (10xxxxxx), with the continuation bytes that follow it. *)
Definition is_continuation (c : ascii) : bool :=
  let n := nat_of_ascii c in ((128 <=? n) && (n <? 192))%nat.

Definition continues (s : string) : bool :=
  match s with
  | String c _ => is_continuation c
  | EmptyString => false
  end.

Fixpoint characters (s : string) : list string :=
  match s with
  | EmptyString => []
  | String c r =>
      match characters r with
      | first :: rest =>
          if continues r then String c first :: rest
          else String c "" :: first :: rest
      | [] => [String c ""]
      end
  end.

(** A character beyond U+FFFF, of four bytes, takes two code units, a high
    and a low surrogate; every other character takes one. *)
Definition code_units (character : string) : nat :=
  match character with
  | String c _ => if (240 <=? nat_of_ascii c)%nat then 2 else 1
  | EmptyString => 0
  end.

(** The high surrogate of a character of four bytes, written as three
    bytes in the way of UTF-8. *)
Definition high_surrogate (character : string) : string :=
  match map N_of_ascii (list_ascii_of_string character) with
  | [b1; b2; b3; _] =>
      let plane := ((b1 mod 8) * 4 + (b2 / 16) mod 4 - 1)%N in
      let unit := (55296 + plane * 64 + (b2 mod 16) * 4 + (b3 / 16) mod 4)%N in
      string_of_list_ascii
        (map ascii_of_N [237; 128 + (unit / 64) mod 64; 128 + unit mod 64]%N)
  | _ => ""
  end.

(** [s.substring(0, n)]: the first [n] code units. Where the cut falls
    inside a character of two code units, its high surrogate is left. *)
Fixpoint take_code_units (n : nat) (chars : list string) : string :=
  match n, chars with
  | O, _ => ""
  | _, [] => ""
  | S n', ch :: rest =>
      match code_units ch, n' with
      | 2%nat, O => high_surrogate ch
      | 2%nat, S n'' => ch +:+ take_code_units n'' rest
      | _, _ => ch +:+ take_code_units n' rest
      end
  end.

Definition substring0 (n : nat) (s : string) : string :=
  take_code_units n (characters s).

(** [s.split(',')]: never empty, the empty string splits into [[""]]. *)
Fixpoint split_comma (s : string) : list string :=
  match s with
  | EmptyString => [""]
  | String c r =>
      if Ascii.eqb c ","%char then "" :: split_comma r
      else match split_comma r with
           | p :: ps => String c p :: ps
           | [] => [String c ""]
           end
  end.

(** [Boolean(s)] on a string. *)
Definition Boolean (s : string) : bool :=
  match s with
  | EmptyString => false
  | String _ _ => true
  end.

(** [s.replace(/[:.]/g, '-')]. *)
Fixpoint replace_colon_dot (s : string) : string :=
  match s with
  | String c r =>
      String (if Ascii.eqb c ":"%char || Ascii.eqb c "."%char then "-"%char else c)
             (replace_colon_dot r)
  | EmptyString => ""
  end.

(** ** Paths *)

(** The paths of a POSIX system, as the [path] module of Node reads them
    there. *)

(** [s.split('/')]. *)
Fixpoint split_slash (s : string) : list string :=
  match s with
  | EmptyString => [""]
  | String c r =>
      if Ascii.eqb c "/"%char then "" :: split_slash r
      else match split_slash r with
           | p :: ps => String c p :: ps
           | [] => [String c ""]
           end
  end.

(** [segments.join('/')]. *)
Fixpoint join_slash (segments : list string) : string :=
  match segments with
  | [] => ""
  | [x] => x
  | x :: rest => x +:+ "/" +:+ join_slash rest
  end.

(** One more segment of a path, after the segments kept so far (the last
    one first). An empty segment and [.] are dropped. [..] takes away the
    segment before it, unless there is none or it is [..] itself: then [..]
    is kept if the path may lead above its start, and dropped if not. *)
Definition take_segment (allowAboveRoot : bool) (kept : list string) (segment : string)
    : list string :=
  if String.eqb segment "" || String.eqb segment "." then kept
  else if String.eqb segment ".." then
    match kept with
    | last :: before =>
        if String.eqb last ".." then
          if allowAboveRoot then segment :: kept else kept
        else before
    | [] => if allowAboveRoot then [segment] else []
    end
  else segment :: kept.

(** [normalizeString(path, allowAboveRoot, '/', isPosixPathSeparator)]. *)
Definition normalizeString (path : string) (allowAboveRoot : bool) : string :=
  join_slash (rev (fold_left (take_segment allowAboveRoot) (split_slash path) [])).

Definition starts_with_slash (s : string) : bool :=
  match s with
  | String c _ => Ascii.eqb c "/"%char
  | EmptyString => false
  end.

Definition ends_with_slash (s : string) : bool := starts_with_slash (String.rev s).

(** [path.normalize(path)]. *)
Definition normalize (path : string) : string :=
  if String.eqb path "" then "."
  else
    let isAbsolute := starts_with_slash path in
    let trailingSeparator := ends_with_slash path in
    let path := normalizeString path (negb isAbsolute) in
    if String.eqb path "" then
      if isAbsolute then "/" else if trailingSeparator then "./" else "."
    else
      let path := if trailingSeparator then path +:+ "/" else path in
      if isAbsolute then "/" +:+ path else path.

(** [path.join(a, b)]: the arguments that are not empty, with [/] between
    them, normalized. *)
Definition path_join (a b : string) : string :=
  let joined :=
    match a, b with
    | EmptyString, _ => b
    | _, EmptyString => a
    | _, _ => a +:+ "/" +:+ b
    end in
  normalize joined.

(** ** Date *)

Module Date.

Definition msPerSecond : Z := 1000.
Definition msPerMinute : Z := 60000.
Definition msPerHour : Z := 3600000.
Definition msPerDay : Z := 86400000.

Definition Day (t : Z) : Z := t / msPerDay.
Definition HourFromTime (t : Z) : Z := (t / msPerHour) mod 24.
Definition MinFromTime (t : Z) : Z := (t / msPerMinute) mod 60.
Definition SecFromTime (t : Z) : Z := (t / msPerSecond) mod 60.
Definition msFromTime (t : Z) : Z := t mod msPerSecond.

Definition MakeTime (hour min sec ms : Z) : Z :=
  hour * msPerHour + min * msPerMinute + sec * msPerSecond + ms.
Definition MakeDate (day time : Z) : Z := day * msPerDay + time.

(** A time value further than 8.64e15 ms from the epoch is no time. *)
Definition TimeClip (t : Z) : intnum :=
  if Z.abs t <=? 8640000000000000 then Int t else NaN.

(** The time zone of the process, as far as a [Date] reads it: how far
    local time is ahead of UTC, in milliseconds, at a time given in UTC, and
    at a time given in local time (where local times are skipped or
    repeated the standard settles which offset is meant). *)
Record time_zone : Type := TimeZone {
  offset_at_utc : Z -> Z;
  offset_at_local : Z -> Z
}.

Definition LocalTime (tz : time_zone) (t : Z) : Z := t + offset_at_utc tz t.
Definition UTC (tz : time_zone) (t : Z) : Z := t - offset_at_local tz t.

(** [date.setMilliseconds(ms)], as the standard words it: the local time of
    the date is taken apart, its millisecond field replaced by [ms] cut to
    an integer, and the result brought back to UTC and clipped. (The sums of
    MakeTime and MakeDate are sums of doubles; they are exact below 2^53,
    and a sum that is not exact is further than 8.64e15 from zero also after
    the offset, which is less than a day, is taken off, so that TimeClip
    gives NaN for it as it does for the exact sum.) *)
Definition setMilliseconds (tz : time_zone) (t : intnum) (ms : float) : intnum :=
  match t with
  | NaN => NaN
  | Int t =>
      let t := LocalTime tz t in
      match truncate ms with
      | None => NaN
      | Some milli =>
          let time := MakeTime (HourFromTime t) (MinFromTime t) (SecFromTime t) milli in
          TimeClip (UTC tz (MakeDate (Day t) time))
      end
  end.

Definition getter (f : Z -> Z) (t : intnum) : intnum :=
  match t with
  | NaN => NaN
  | Int t => Int (f t)
  end.

(** The calendar. The standard defines the year of a time value as the
    largest year that starts no later; it is computed here in the usual
    way, with days counted in eras of 400 years (146097 days) and years
    counted from the first of March. *)
Definition year_of_era (doe : Z) : Z :=
  (doe - doe / 1460 + doe / 36524 - doe / 146096) / 365.
Definition day_of_year (doe : Z) : Z :=
  let yoe := year_of_era doe in doe - (365 * yoe + yoe / 4 - yoe / 100).
Definition month_from_march (doe : Z) : Z := (5 * day_of_year doe + 2) / 153.

Definition era (t : Z) : Z := (Day t + 719468) / 146097.
Definition day_of_era (t : Z) : Z := (Day t + 719468) mod 146097.

Definition YearFromTime (t : Z) : Z :=
  year_of_era (day_of_era t) + era t * 400
  + (if 10 <=? month_from_march (day_of_era t) then 1 else 0).
(** January is month 0. *)
Definition MonthFromTime (t : Z) : Z :=
  let mp := month_from_march (day_of_era t) in
  if mp <? 10 then mp + 2 else mp - 10.
Definition DateFromTime (t : Z) : Z :=
  let doe := day_of_era t in
  day_of_year doe - (153 * month_from_march doe + 2) / 5 + 1.

(** [width] decimal digits, the most significant first. *)
Definition digit (d : Z) : ascii := ascii_of_nat (48 + Z.to_nat (d mod 10)).
Fixpoint digits (width : nat) (n : Z) : string :=
  match width with
  | O => ""
  | S w => digits w (n / 10) +:+ String (digit n) ""
  end.

(** [date.toISOString()] of a date that is a time: [YYYY-MM-DDTHH:mm:ss.sssZ],
    the year with a sign and six digits outside 0 to 9999. *)
Definition toISOString (t : Z) : string :=
  let y := YearFromTime t in
  let year := if (0 <=? y) && (y <=? 9999) then digits 4 y
              else (if y <? 0 then "-" else "+") +:+ digits 6 (Z.abs y) in
  year +:+ "-" +:+ digits 2 (MonthFromTime t + 1) +:+ "-" +:+ digits 2 (DateFromTime t)
  +:+ "T" +:+ digits 2 (HourFromTime t) +:+ ":" +:+ digits 2 (MinFromTime t)
  +:+ ":" +:+ digits 2 (SecFromTime t) +:+ "." +:+ digits 3 (msFromTime t) +:+ "Z".

Definition getUTCHours : intnum -> intnum := getter HourFromTime.
Definition getUTCMinutes : intnum -> intnum := getter MinFromTime.
Definition getUTCSeconds : intnum -> intnum := getter SecFromTime.
Definition getUTCMilliseconds : intnum -> intnum := getter msFromTime.

End Date.

(* ================================================================== *)
(** * Part II: the script *)
(* ================================================================== *)

(** ** Aligned words *)

Record aligned_word : Type := AlignedWord {
  word : string;
  start_s : float;
  end_s : float
}.

(** ** The two time formats *)

(** Both read the time zone of the process, through [setMilliseconds]; it
    is their first argument here. *)

Definition formatSRTTime (tz : Date.time_zone) (seconds : float) : string :=
  let date := Int 0 in
  let date := Date.setMilliseconds tz date (seconds * 1000)%float in
  let hours := padStart 2 "0" (ToString (Date.getUTCHours date)) in
  let minutes := padStart 2 "0" (ToString (Date.getUTCMinutes date)) in
  let secs := padStart 2 "0" (ToString (Date.getUTCSeconds date)) in
  let milliseconds := padStart 3 "0" (ToString (Date.getUTCMilliseconds date)) in
  hours +:+ ":" +:+ minutes +:+ ":" +:+ secs +:+ "," +:+ milliseconds.

Definition formatLRCTime (tz : Date.time_zone) (seconds : float) : string :=
  let date := Int 0 in
  let date := Date.setMilliseconds tz date (seconds * 1000)%float in
  let minutes := padStart 2 "0" (ToString (Date.getUTCMinutes date)) in
  let secs := padStart 2 "0" (ToString (Date.getUTCSeconds date)) in
  let hundredths :=
    padStart 2 "0" (ToString (floor_div (Date.getUTCMilliseconds date) 10)) in
  "[" +:+ minutes +:+ ":" +:+ secs +:+ "." +:+ hundredths +:+ "]".

(** ** The converters *)

(** [array.forEach((x, i) => ...)] where the callback updates a variable
    of the enclosing function: the variable is threaded through. *)
Fixpoint forEach_from {A V : Type} (i : nat) (callback : A -> nat -> V -> V)
    (array : list A) (v : V) : V :=
  match array with
  | [] => v
  | x :: rest => forEach_from (S i) callback rest (callback x i v)
  end.

Definition forEach {A V : Type} : (A -> nat -> V -> V) -> list A -> V -> V :=
  forEach_from 0.

Definition convertToSRT (tz : Date.time_zone) (alignedWords : list aligned_word) : string :=
  let srtContent := "" in
  forEach (fun w i srtContent =>
             srtContent +:+
               (pretty (i + 1)%nat +:+ LF +:+
                formatSRTTime tz (start_s w) +:+ " --> " +:+ formatSRTTime tz (end_s w) +:+ LF +:+
                word w +:+ LF +:+ LF))
          alignedWords srtContent.

Definition convertToLRC (tz : Date.time_zone) (alignedWords : list aligned_word) : string :=
  let lrcContent := "" in
  forEach (fun w _ lrcContent =>
             lrcContent +:+ (formatLRCTime tz (start_s w) +:+ word w +:+ LF))
          alignedWords lrcContent.

(** ** What the script runs in *)

(** The body of a response, as [res.data] shows it to the script:
    text that was not JSON (axios hands it over as a string), or a JSON
    value, of which the script reads one property. [Parsed None] stands for
    every value whose [aligned_words] is missing or falsy; when the property
    is there it holds an array of aligned words, as the service documents it
    (an array is truthy, the empty one too). *)
Inductive body : Type :=
  | Unparsed (text : string)
  | Parsed (aligned_words : option (list aligned_word)).

(** An answer of the service as axios hands it to the script: [res] of a
    fulfilled request and [err.response] of a rejected one. The script reads
    [res.data] and [err.response.status]. *)
Record http_response : Type := HttpResponse { status : Z; data : body }.

(** A thrown value: [err.message] and [err.response]. *)
Record error : Type := Error { message : string; response : option http_response }.

(** What comes back for a request: an answer, with its HTTP status, or no
    answer at all (the name does not resolve, the connection is refused or
    cut), with the message of the failure. *)
Inductive answer : Type :=
  | Answered (res : http_response)
  | Unanswered (reason : string).

(** What [await axios.get(url, config)] comes to: the promise is fulfilled
    with [res] or rejected with [err]. *)
Inductive settled : Type :=
  | Fulfilled (res : http_response)
  | Rejected (err : error).

(** The statuses axios accepts unless told otherwise, and the script does
    not tell it: 200 to 299. *)
Definition validateStatus (status : Z) : bool := (200 <=? status) && (status <? 300).

(** How axios settles a request: an answer of an accepted status fulfils
    the promise; an answer of any other status rejects it with
    [err.response] set; no answer rejects it without [err.response]. *)
Definition settle (a : answer) : settled :=
  match a with
  | Answered res =>
      if validateStatus (status res) then Fulfilled res
      else Rejected (Error ("Request failed with status code " +:+ pretty (status res))
                           (Some res))
  | Unanswered reason => Rejected (Error reason None)
  end.

(** What the script does that can be seen from outside, in order. *)
Inductive event : Type :=
  | Printed (text : string)
  | PrintedError (text detail : string)
  | Asked (question answer : string)
  | Requested (url token : string)
  | Wrote (path content : string)
  | MadeDir (path : string).

(** What the script does not decide: where it runs and in which time zone,
    what the operator types at the n-th prompt, what comes back for the n-th
    request, what the clock shows when read for the n-th time, and where the
    file system lets it write. *)
Record environment : Type := Environment {
  cwd : string;
  zone : Date.time_zone;
  operator : nat -> string;
  remote : nat -> string -> string -> answer;
  clock : nat -> Z;
  writable : string -> bool
}.

Record state : Type := State {
  files : gmap string string;
  dirs : gset string;
  prompts : nat;
  requests : nat;
  readings : nat;
  trace : list event
}.

Inductive outcome (A : Type) : Type :=
  | Return (a : A)
  | Throw (e : error).
Arguments Return {A} a.
Arguments Throw {A} e.

(** A computation of the script: it reads the environment, changes the
    state, and returns or throws. *)
Definition M (A : Type) : Type := environment -> state -> outcome A * state.

Global Instance M_ret : MRet M := fun A a _ s => (Return a, s).
Global Instance M_bind : MBind M := fun A B k m env s =>
  match m env s with
  | (Return a, s') => k a env s'
  | (Throw e, s') => (Throw e, s')
  end.

Definition throw {A : Type} (e : error) : M A := fun _ s => (Throw e, s).

(** [try { m } catch (err) { handler }]. *)
Definition try_catch {A : Type} (m : M A) (handler : error -> M A) : M A :=
  fun env s =>
    match m env s with
    | (Return a, s') => (Return a, s')
    | (Throw e, s') => handler e env s'
    end.

Definition record (e : event) (s : state) : state :=
  {| files := files s; dirs := dirs s; prompts := prompts s;
     requests := requests s; readings := readings s;
     trace := trace s ++ [e] |}.

(** [console.log(text)]: the string it is given. (On its way to the terminal
    a surrogate that stands alone, as [substring] can leave one, becomes
    U+FFFD.) *)
Definition console_log (text : string) : M unit :=
  fun _ s => (Return tt, record (Printed text) s).

(** [console.error(text, detail)]: the two arguments, as they are given. *)
Definition console_error (text detail : string) : M unit :=
  fun _ s => (Return tt, record (PrintedError text detail) s).


Definition existsSync (path : string) : M bool :=
  fun _ s => (Return (bool_decide (is_Some (files s !! path))
                      || bool_decide (path ∈ dirs s)), s).

Definition readFileSync (path : string) : M string :=
  fun _ s =>
    match files s !! path with
    | Some content => (Return content, s)
    | None =>
        (Throw (Error ("ENOENT: no such file or directory, open '" +:+ path +:+ "'") None), s)
    end.

(** The file system lets the script write at a path, or it does not (no
    permission, no directory to write in): the environment says which. *)
Definition writeFileSync (path content : string) : M unit :=
  fun env s =>
    if writable env path then
      (Return tt,
       record (Wrote path content)
         {| files := <[path := content]> (files s); dirs := dirs s;
            prompts := prompts s; requests := requests s;
            readings := readings s; trace := trace s |})
    else
      (Throw (Error ("EACCES: permission denied, open '" +:+ path +:+ "'") None), s).

Definition mkdirSync (path : string) : M unit :=
  fun env s =>
    if writable env path then
      (Return tt,
       record (MadeDir path)
         {| files := files s; dirs := {[path]} ∪ dirs s;
            prompts := prompts s; requests := requests s;
            readings := readings s; trace := trace s |})
    else
      (Throw (Error ("EACCES: permission denied, mkdir '" +:+ path +:+ "'") None), s).

(** [await axios.get(url, { headers: { Authorization: `Bearer ${token}` } })]. *)
Definition axios_get (url token : string) : M http_response :=
  fun env s =>
    let s' := record (Requested url token)
                {| files := files s; dirs := dirs s; prompts := prompts s;
                   requests := S (requests s); readings := readings s;
                   trace := trace s |} in
    match settle (remote env (requests s) url token) with
    | Fulfilled res => (Return res, s')
    | Rejected err => (Throw err, s')
    end.

(** [new Date()], as its time value. *)
Definition new_Date : M Z :=
  fun env s =>
    (Return (clock env (readings s)),
     {| files := files s; dirs := dirs s; prompts := prompts s;
        requests := requests s; readings := S (readings s);
        trace := trace s |}).

(** ** The script, continued *)

Definition TOKEN_FILE (env : environment) : string := path_join (cwd env) "token.txt".

(** Lines 11 to 15: the token file is created empty when it is missing. *)
Definition startup : M unit :=
  fun env =>
    (found ← existsSync (TOKEN_FILE env);
     if negb found then
       writeFileSync (TOKEN_FILE env) "";;
       console_log "📄 Created empty token.txt"
     else mret tt) env.

Definition fetchAlignedWords (songId token : string) : M (option (list aligned_word)) :=
  let apiUrl :=
    "https://studio-api.prod.suno.com/api/gen/" +:+ songId +:+ "/aligned_lyrics/v2/" in
  try_catch
    (res ← axios_get apiUrl token;
     match data res with
     | Parsed (Some aligned_words) => mret (Some aligned_words)
     | _ => mret None
     end)
    (fun err =>
       if match response err with
          | Some r => status r =? 401
          | None => false
          end
       then throw (Error "TOKEN_INVALID" None)
       else
         console_error ("Error fetching song " +:+ songId +:+ ":") (message err);;
         mret None).

(** [ask(question)]: the question is shown and the answer awaited. *)
Definition ask (question : string) : M string :=
  fun env s =>
    let ans := operator env (prompts s) in
    (Return ans,
     record (Asked question ans)
       {| files := files s; dirs := dirs s; prompts := S (prompts s);
          requests := requests s; readings := readings s; trace := trace s |}).

(** The name [saveFile] gives the file, from the time the clock showed. *)
Definition timestamp_of (now : Z) : string := replace_colon_dot (Date.toISOString now).

Definition fileName_of (songId timestamp fileType : string) : string :=
  "aligned_words_" +:+ songId +:+ "_" +:+ timestamp +:+ "." +:+ fileType.

Definition saveFile (content fileType songId : string) : M unit :=
  fun env =>
    (now ← new_Date;
     let timestamp := timestamp_of now in
     let outputDir := path_join (cwd env) "output" in
     found ← existsSync outputDir;
     (if negb found then mkdirSync outputDir else mret tt);;
     let fileName := fileName_of songId timestamp fileType in
     let filePath := path_join outputDir fileName in
     writeFileSync filePath content;;
     console_log ("✅ Saved: " +:+ filePath)) env.

(** [loadToken] leaves its first [if] either by the [return] of the branch
    that declines the saved token, or with the value of [token]. *)
Inductive first_part : Type :=
  | Returned (token : string)
  | Falls_through (token : option string).

Definition loadToken : M string :=
  fun env =>
    (let token : option string := None in
     found ← existsSync (TOKEN_FILE env);
     part ←
       (if (found : bool) then
          content ← readFileSync (TOKEN_FILE env);
          let saved := trim content in
          if Boolean saved then
            console_log ("🔑 Found saved token: " +:+ substring0 15 saved +:+ "...");;
            choice ← ask "Use this token? (Y/n): ";
            if String.eqb (toLowerCase choice) "n" then
              token ← ask "Enter new Bearer token: ";
              writeFileSync (TOKEN_FILE env) (trim token);;
              console_log "💾 New token saved.";;
              mret (Returned (trim token))
            else
              let token := Some saved in
              console_log "👍 Using saved token.";;
              mret (Falls_through token)
          else mret (Falls_through token)
        else mret (Falls_through token));
     match part with
     | Returned token => mret token
     | Falls_through token =>
         token ←
           match token with
           | Some (String c r) => mret (String c r)
           | _ =>
               token ← ask "Enter Bearer token: ";
               writeFileSync (TOKEN_FILE env) (trim token);;
               console_log "💾 Token saved for future runs.";;
               mret token
           end;
         (* Validate token *)
         token ←
           try_catch
             (fetchAlignedWords "dummy-check" token;; mret token)
             (fun err =>
                if String.eqb (message err) "TOKEN_INVALID" then
                  console_log "❌ Token expired or invalid. Please enter a new one.";;
                  token ← ask "Enter Bearer token: ";
                  writeFileSync (TOKEN_FILE env) (trim token);;
                  console_log "💾 Token saved.";;
                  mret token
                else mret token);
         mret (trim token)
     end) env.

(** [for (const x of xs) { body }], where the body ends normally (also by
    [continue]) or by [break]. *)
Inductive completion : Type :=
  | Normal
  | Break.

Fixpoint for_of {A : Type} (xs : list A) (body : A -> M completion) : M unit :=
  match xs with
  | [] => mret tt
  | x :: rest =>
      c ← body x;
      match c with
      | Normal => for_of rest body
      | Break => mret tt
      end
  end.

(** Lines 159 to 177 of [main]: the loop over the identifiers and the last
    message. *)
Definition loop_body (fileType token songId : string) : M completion :=
  fun env =>
  (console_log (LF +:+ "Fetching aligned words for " +:+ songId +:+ "...");;
  try_catch
    (words ← fetchAlignedWords songId token;
     match words with
     | None =>
         console_log ("⚠️ No words for " +:+ songId);;
         mret Normal
     | Some words =>
         let content :=
           if String.eqb fileType "srt" then convertToSRT (zone env) words
           else convertToLRC (zone env) words in
         saveFile content fileType songId;;
         mret Normal
     end)
    (fun err =>
       if String.eqb (message err) "TOKEN_INVALID" then
         console_log "❌ Your token is invalid. Please run the program again to refresh.";;
         mret Break
       else mret Normal)) env.

Definition processSongs (songIds : list string) (fileType token : string) : M unit :=
  for_of songIds (loop_body fileType token);;
  console_log (LF +:+ "✅ All done!").

Definition main : M unit :=
  songIdsInput ← ask "Enter song IDs (comma-separated): ";
  let songIds := filter (fun s => Boolean s = true) (map trim (split_comma songIdsInput)) in
  fileType ← ask "Enter file type (lrc or srt, default lrc): ";
  let fileType := if String.eqb (toLowerCase fileType) "srt" then "srt" else "lrc" in
  token ← loadToken;
  processSongs songIds fileType token.

(** The script, from its first line. *)
Definition script : M unit := startup;; main.

(* ================================================================== *)
(** * Part III: the vocabulary of the statements *)
(* ================================================================== *)

(** ** Documents as sequences of pieces and of lines *)

Fixpoint concat_strings (pieces : list string) : string :=
  match pieces with
  | [] => ""
  | p :: rest => p +:+ concat_strings rest
  end.

(** No line feed inside. *)
Fixpoint no_LF (s : string) : bool :=
  match s with
  | String c r => negb (Ascii.eqb c LF_char) && no_LF r
  | EmptyString => true
  end.

(** The lines of a document: every line feed ends a line; what follows the
    last line feed, when not empty, is a last line. *)
Fixpoint lines (s : string) : list string :=
  match s with
  | EmptyString => []
  | String c r =>
      if Ascii.eqb c LF_char then "" :: lines r
      else match lines r with
           | l :: ls => String c l :: ls
           | [] => [String c ""]
           end
  end.

(** What the converters write for one word. *)
Definition srt_block (tz : Date.time_zone) (i : nat) (w : aligned_word) : string :=
  pretty (i + 1)%nat +:+ LF +:+
  formatSRTTime tz (start_s w) +:+ " --> " +:+ formatSRTTime tz (end_s w) +:+ LF +:+
  word w +:+ LF +:+ LF.

Definition lrc_line (tz : Date.time_zone) (w : aligned_word) : string :=
  formatLRCTime tz (start_s w) +:+ word w +:+ LF.

(** ** The shape of an LRC time stamp *)

Definition is_digit (c : ascii) : bool :=
  let n := nat_of_ascii c in ((48 <=? n) && (n <=? 57))%nat.

(** [line] starts with [[dd:dd.dd]]. *)
Definition has_lrc_stamp (line : string) : bool :=
  match line with
  | String b (String m1 (String m2 (String c (String s1 (String s2
      (String d (String h1 (String h2 (String e _))))))))) =>
      Ascii.eqb b "["%char && is_digit m1 && is_digit m2 && Ascii.eqb c ":"%char
      && is_digit s1 && is_digit s2 && Ascii.eqb d "."%char
      && is_digit h1 && is_digit h2 && Ascii.eqb e "]"%char
  | _ => false
  end.

(** Two decimal digits, written out. *)
Definition two_digits (n : Z) : string :=
  String (Date.digit (n / 10)) (String (Date.digit (n mod 10)) "").

(** The time value a word starts at: what [setMilliseconds] leaves in the
    date that the formatters read. *)
Definition start_time (tz : Date.time_zone) (w : aligned_word) : intnum :=
  Date.setMilliseconds tz (Int 0) (start_s w * 1000)%float.

Definition is_time (t : intnum) : bool :=
  match t with
  | Int _ => true
  | NaN => false
  end.

(** The LRC property as the specification words it: one line per word,
    every line starting with a stamp. *)
Definition lrc_one_stamped_line_per_word (tz : Date.time_zone) (ws : list aligned_word) : Prop :=
  length (lines (convertToLRC tz ws)) = length ws
  /\ Forall (fun l => has_lrc_stamp l = true) (lines (convertToLRC tz ws)).

(** ** Time zones *)

(** The zone of a process started with [TZ=UTC]. *)
Definition universal : Date.time_zone :=
  {| Date.offset_at_utc := fun _ => 0; Date.offset_at_local := fun _ => 0 |}.

(** A zone five hours behind UTC that moves its clocks forward by one hour
    on 26 April 1970 at 02:00 local time (07:00 UTC), as the east of North
    America did. The local times of the hour that is skipped are read with
    the offset of before. *)
Definition eastern : Date.time_zone :=
  {| Date.offset_at_utc := fun t => if t <? 9961200000 then -18000000 else -14400000;
     Date.offset_at_local := fun t => if t <? 9946800000 then -18000000 else -14400000 |}.

(** From [lo] to [hi] milliseconds after the epoch the zone keeps the offset
    it has at the epoch, a whole number of seconds. *)
Definition steady (tz : Date.time_zone) (lo hi : Z) : Prop :=
  Date.offset_at_utc tz 0 mod 1000 = 0
  /\ forall t : Z, lo <= t <= hi ->
       Date.offset_at_local tz (Date.offset_at_utc tz 0 + t) = Date.offset_at_utc tz 0.

(** The local time of the epoch, without its milliseconds: what
    [setMilliseconds] adds the milliseconds to. *)
Definition local_epoch (tz : Date.time_zone) : Z :=
  Date.LocalTime tz 0 - Date.msFromTime (Date.LocalTime tz 0).

(** The word of the example in the specification. *)
Definition hello : aligned_word :=
  {| word := "hello"; start_s := 1.5%float; end_s := 2.0%float |}.

(** ** Runs *)

(** The address [fetchAlignedWords] asks for a song. *)
Definition apiUrl_of (songId : string) : string :=
  "https://studio-api.prod.suno.com/api/gen/" +:+ songId +:+ "/aligned_lyrics/v2/".

(** The error [fetchAlignedWords] throws on a 401: the AuthError of the
    specification. *)
Definition AuthError : error := Error "TOKEN_INVALID" None.

(** The fetch as the specification words it, by the status of the answer:
    a 401 fails with the AuthError; a 200 that holds [aligned_words] returns
    the array; everything else (no answer, any other status, a 200 without
    [aligned_words]) returns null. *)
Definition fetch_by_status (env : environment) (s : state) (songId token : string) : Prop :=
  let result := fst (fetchAlignedWords songId token env s) in
  match remote env (requests s) (apiUrl_of songId) token with
  | Answered res =>
      if status res =? 401 then result = Throw AuthError
      else if status res =? 200 then
        match data res with
        | Parsed (Some ws) => result = Return (Some ws)
        | _ => result = Return None
        end
      else result = Return None
  | Unanswered _ => result = Return None
  end.

(** The requests of a trace, and the paths written, in order. *)
Definition requested (t : list event) : list (string * string) :=
  flat_map (fun e => match e with Requested url token => [(url, token)] | _ => [] end) t.

Definition written (t : list event) : list string :=
  flat_map (fun e => match e with Wrote path _ => [path] | _ => [] end) t.

(** The lines printed last. *)
Definition warning_for (songId : string) : event := Printed ("⚠️ No words for " +:+ songId).
Definition token_is_invalid : event :=
  Printed "❌ Your token is invalid. Please run the program again to refresh.".
Definition all_done : event := Printed (LF +:+ "✅ All done!").
Definition fetching (songId : string) : event :=
  Printed (LF +:+ "Fetching aligned words for " +:+ songId +:+ "...").

(** ** Two runs *)

(** A run with nothing on disk but the working directory. *)
Definition fresh (contents : gmap string string) : state :=
  {| files := contents; dirs := ∅; prompts := 0; requests := 0; readings := 0;
     trace := [] |}.

(** A run in which the service answers at once: the clock shows the same
    millisecond at both saves. The same song is asked for twice. *)
Definition same_millisecond : environment :=
  {| cwd := "/home/user"; zone := universal;
     operator := fun _ => "";
     remote := fun n _ _ =>
       match n with
       | O => Answered (HttpResponse 200 (Parsed (Some [AlignedWord "first" 0.5%float 1.0%float])))
       | _ => Answered (HttpResponse 200 (Parsed (Some [AlignedWord "second" 0.5%float 1.0%float])))
       end;
     clock := fun _ => 1700000000123;
     writable := fun _ => true |}.

(** A run in which the service answers 201, with the words. *)
Definition created : environment :=
  {| cwd := "/home/user"; zone := universal;
     operator := fun _ => "";
     remote := fun _ _ _ => Answered (HttpResponse 201 (Parsed (Some [hello])));
     clock := fun _ => 1700000000123;
     writable := fun _ => true |}.

(** A run in which the operator declines the saved token and types a new
    one, which the service would refuse. *)
Definition declining : environment :=
  {| cwd := "/home/user"; zone := universal;
     operator := fun n => match n with O => "n" | _ => "fresh-token" end;
     remote := fun _ _ _ => Answered (HttpResponse 401 (Parsed None));
     clock := fun _ => 1700000000123;
     writable := fun _ => true |}.

(** Whether [loadToken], started in [s], is told to drop the saved token:
    there is one, and the answer to the first prompt is [n] or [N]. *)
Definition declines (env : environment) (s : state) : bool :=
  match files s !! TOKEN_FILE env with
  | Some content =>
      Boolean (trim content)
      && String.eqb (toLowerCase (operator env (prompts s))) "n"
  | None => false
  end.

(** ** Times, lines and lists of identifiers *)

(** The time value the formatters read for [seconds]. *)
Definition time_of (tz : Date.time_zone) (seconds : float) : intnum :=
  Date.setMilliseconds tz (Int 0) (seconds * 1000)%float.

(** [s] without its first [n] bytes. *)
Fixpoint string_drop (n : nat) (s : string) : string :=
  match n, s with
  | S n', String _ r => string_drop n' r
  | _, _ => s
  end.

(** The four lines of the SRT block of a word. *)
Definition srt_lines (tz : Date.time_zone) (i : nat) (w : aligned_word) : list string :=
  [pretty (i + 1)%nat;
   formatSRTTime tz (start_s w) +:+ " --> " +:+ formatSRTTime tz (end_s w);
   word w;
   ""].

(** The identifiers [main] takes from the answer to its first prompt. *)
Definition songIds_of (songIdsInput : string) : list string :=
  filter (fun s => Boolean s = true) (map trim (split_comma songIdsInput)).

(** The extension [main] takes from the answer to its second prompt. *)
Definition fileType_of (answer : string) : string :=
  if String.eqb (toLowerCase answer) "srt" then "srt" else "lrc".

(** Identifiers written one after the other, with commas between. *)
Fixpoint join_comma (ids : list string) : string :=
  match ids with
  | [] => ""
  | [x] => x
  | x :: rest => x +:+ "," +:+ join_comma rest
  end.

Fixpoint no_comma (s : string) : bool :=
  match s with
  | String c r => negb (Ascii.eqb c ","%char) && no_comma r
  | EmptyString => true
  end.

(** Nothing to trim at the start, and at the end. *)
Definition clean_start (s : string) : Prop := strip_first white_space s = None.
Definition clean_end (s : string) : Prop :=
  strip_first (map String.rev white_space) (String.rev s) = None.

(** What is made of white space only. *)
Definition blank (s : string) : Prop :=
  exists pieces : list string,
    Forall (fun p => In p white_space) pieces /\ s = concat_strings pieces.

(** An identifier as [main] keeps them: not empty, without comma, and with
    no white space at either end. *)
Definition clean_id (s : string) : Prop :=
  Boolean s = true /\ no_comma s = true /\ trim s = s.

(** The directory and the path of the file [saveFile] writes. *)
Definition outputDir_of (env : environment) : string := path_join (cwd env) "output".

Definition filePath_of (env : environment) (songId fileType : string) (now : Z) : string :=
  path_join (outputDir_of env) (fileName_of songId (timestamp_of now) fileType).

(** ** Paths *)






(** The events of a trace that are prompts. *)
Definition asked (t : list event) : list (string * string) :=
  flat_map (fun e => match e with Asked q a => [(q, a)] | _ => [] end) t.

(** The [k]-th request of the run, when it is the one for [songId] with
    [token], is answered with a 401. *)
Definition refused (env : environment) (k : nat) (songId token : string) : Prop :=
  exists res : http_response,
    remote env k (apiUrl_of songId) token = Answered res /\ status res = 401.

(** No request is ever answered with a 401. *)
Definition never_refused (env : environment) : Prop :=
  forall (n : nat) (url token : string) (res : http_response),
    remote env n url token = Answered res -> status res <> 401.

(** A run in which the saved token is reused and three identifiers are
    typed, with spaces and an empty entry between the commas. *)
Definition typical : environment :=
  {| cwd := "/home/user"; zone := universal;
     operator := fun n => nth n ["one, two ,,three"; "SRT"; "" ] "";
     remote := fun n _ _ =>
       match n with
       | 1%nat => Answered (HttpResponse 200 (Parsed (Some [hello])))
       | _ => Answered (HttpResponse 200 (Parsed None))
       end;
     clock := fun _ => 1700000000123;
     writable := fun _ => true |}.

(* ================================================================== *)
(** * Part IV: lemmas and theorems *)
(* ================================================================== *)

(** ** Strings *)

Lemma append_nil_r (s : string) : s +:+ "" = s.
Proof. induction s as [|c s IH]; [reflexivity|]. change (String c (s +:+ "") = String c s). by rewrite IH. Qed.

Lemma append_assoc (s t u : string) : (s +:+ t) +:+ u = s +:+ (t +:+ u).
Proof.
  induction s as [|c s IH]; [reflexivity|].
  change (String c ((s +:+ t) +:+ u) = String c (s +:+ (t +:+ u))). by rewrite IH.
Qed.

Lemma append_cons (c : ascii) (s t : string) : String c s +:+ t = String c (s +:+ t).
Proof. reflexivity. Qed.

Lemma concat_strings_cons (x : string) (xs : list string) :
  concat_strings (x :: xs) = x +:+ concat_strings xs.
Proof. reflexivity. Qed.

Lemma concat_strings_app (xs ys : list string) :
  concat_strings (xs ++ ys) = concat_strings xs +:+ concat_strings ys.
Proof.
  induction xs as [|x xs IH]; simpl; [reflexivity|].
  by rewrite IH, append_assoc.
Qed.

(** ** The loop of the converters *)

(** A callback that appends a piece to the variable it updates leaves the
    pieces behind, one per element and in the order of the array. *)
Lemma forEach_from_append {A : Type} (piece : A -> nat -> string)
    (array : list A) (i : nat) (v : string) :
  forEach_from i (fun x j v => v +:+ piece x j) array v
  = v +:+ concat_strings (imap (fun j x => piece x (i + j)%nat) array).
Proof.
  revert i v. induction array as [|x rest IH]; intros i v; simpl.
  - by rewrite append_nil_r.
  - rewrite IH, append_assoc. replace (i + 0)%nat with i by lia.
    do 3 f_equal. apply imap_ext. intros j y _. simpl. f_equal. lia.
Qed.

Lemma convertToSRT_blocks (tz : Date.time_zone) (ws : list aligned_word) :
  convertToSRT tz ws = concat_strings (imap (srt_block tz) ws).
Proof.
  unfold convertToSRT, forEach.
  rewrite (forEach_from_append (fun w j => srt_block tz j w)). reflexivity.
Qed.

Lemma convertToLRC_lines (tz : Date.time_zone) (ws : list aligned_word) :
  convertToLRC tz ws = concat_strings (map (lrc_line tz) ws).
Proof.
  unfold convertToLRC, forEach.
  rewrite (forEach_from_append (fun w _ => lrc_line tz w)).
  change (concat_strings (imap (fun _ w => lrc_line tz w) ws)
          = concat_strings (map (lrc_line tz) ws)).
  f_equal. apply (imap_const (lrc_line tz)).
Qed.

(** C10: the LRC converter maps the concatenation of two sequences of words
    to the concatenation of their two documents. *)
Theorem convertToLRC_app (tz : Date.time_zone) (xs ys : list aligned_word) :
  convertToLRC tz (xs ++ ys) = convertToLRC tz xs +:+ convertToLRC tz ys.
Proof. by rewrite !convertToLRC_lines, map_app, concat_strings_app. Qed.

(** ** The zone of the process *)

(** What [setMilliseconds] leaves in a date that held the epoch. *)
Lemma setMilliseconds_epoch (tz : Date.time_zone) (ms : float) :
  Date.setMilliseconds tz (Int 0) ms
  = match truncate ms with
    | Some milli => Date.TimeClip (Date.UTC tz (local_epoch tz + milli))
    | None => NaN
    end.
Proof.
  unfold Date.setMilliseconds, local_epoch.
  destruct (truncate ms) as [milli|]; [|reflexivity]. do 2 f_equal.
  generalize (Date.LocalTime tz 0). intros t.
  unfold Date.MakeDate, Date.MakeTime, Date.Day, Date.HourFromTime, Date.MinFromTime,
    Date.SecFromTime, Date.msFromTime, Date.msPerDay, Date.msPerHour, Date.msPerMinute,
    Date.msPerSecond.
  Z.to_euclidean_division_equations; lia.
Qed.

(** Where the zone keeps the offset of the epoch, the date holds the
    milliseconds it was given, cut to an integer, as it does in UTC. *)
Lemma setMilliseconds_steady (tz : Date.time_zone) (lo hi : Z) (ms : float) (milli : Z) :
  steady tz lo hi -> truncate ms = Some milli -> lo <= milli <= hi ->
  Date.setMilliseconds tz (Int 0) ms = Date.TimeClip milli.
Proof.
  intros [Hwhole Hkeeps] Hms Hrange. rewrite setMilliseconds_epoch, Hms. f_equal.
  unfold Date.UTC, local_epoch, Date.LocalTime, Date.msFromTime, Date.msPerSecond.
  rewrite Z.add_0_l, Hwhole, Z.sub_0_r, (Hkeeps milli Hrange). lia.
Qed.

Lemma steady_universal (lo hi : Z) : steady universal lo hi.
Proof. by split. Qed.

Lemma setMilliseconds_as_universal (tz : Date.time_zone) (lo hi : Z) (ms : float) (milli : Z) :
  steady tz lo hi -> truncate ms = Some milli -> lo <= milli <= hi ->
  Date.setMilliseconds tz (Int 0) ms = Date.setMilliseconds universal (Int 0) ms.
Proof.
  intros Hsteady Hms Hrange.
  rewrite (setMilliseconds_steady tz lo hi ms milli Hsteady Hms Hrange).
  symmetry. by apply (setMilliseconds_steady universal lo hi ms milli (steady_universal lo hi)).
Qed.

(** ** The example of the specification *)

(** C2: for the single word [{word:"hello", start_s:1.5, end_s:2.0}] the LRC
    converter returns ["[00:01.50]hello\n"] and the SRT converter returns
    ["1\n00:00:01,500 --> 00:00:02,000\nhello\n\n"], in every time zone
    that keeps, for the first two seconds after the epoch, the offset it has
    at the epoch. *)
Theorem example_hello (tz : Date.time_zone) :
  steady tz 0 2000 ->
  convertToLRC tz [hello] = "[00:01.50]hello" +:+ LF
  /\ convertToSRT tz [hello]
     = "1" +:+ LF +:+ "00:00:01,500 --> 00:00:02,000" +:+ LF +:+ "hello" +:+ LF +:+ LF.
Proof.
  intros Hsteady.
  assert (formatLRCTime tz 1.5 = formatLRCTime universal 1.5) as Hlrc.
  { unfold formatLRCTime. cbv zeta.
    by rewrite (setMilliseconds_as_universal tz 0 2000 _ 1500 Hsteady). }
  assert (formatSRTTime tz 1.5 = formatSRTTime universal 1.5) as Hstart.
  { unfold formatSRTTime. cbv zeta.
    by rewrite (setMilliseconds_as_universal tz 0 2000 _ 1500 Hsteady). }
  assert (formatSRTTime tz 2.0 = formatSRTTime universal 2.0) as Hend.
  { unfold formatSRTTime. cbv zeta.
    by rewrite (setMilliseconds_as_universal tz 0 2000 _ 2000 Hsteady). }
  rewrite convertToLRC_lines, convertToSRT_blocks. cbn [map imap concat_strings].
  unfold lrc_line, srt_block, hello. cbn [start_s end_s word].
  rewrite Hlrc, Hstart, Hend. split; vm_compute; reflexivity.
Qed.

Lemma steady_eastern : steady eastern 0 2000.
Proof.
  split; [reflexivity|]. intros t Ht. cbn [eastern Date.offset_at_utc Date.offset_at_local].
  change (0 <? 9961200000) with true. cbv iota.
  destruct (Z.ltb_spec (-18000000 + t) 9946800000); [reflexivity|lia].
Qed.

Lemma example_hello_witness :
  convertToLRC eastern [hello] = "[00:01.50]hello" +:+ LF
  /\ convertToSRT eastern [hello]
     = "1" +:+ LF +:+ "00:00:01,500 --> 00:00:02,000" +:+ LF +:+ "hello" +:+ LF +:+ LF.
Proof. apply (example_hello eastern). exact steady_eastern. Defined.

(** ** Pieces that hold no line feed *)

Lemma no_LF_app (s t : string) : no_LF (s +:+ t) = no_LF s && no_LF t.
Proof.
  induction s as [|c s IH]; [reflexivity|].
  rewrite append_cons. simpl. by rewrite IH, andb_assoc.
Qed.

Lemma no_LF_pretty_N_char (d : N) (s : string) :
  no_LF (String (pretty_N_char d) s) = no_LF s.
Proof. unfold pretty_N_char. by repeat case_match. Qed.

Lemma no_LF_pretty_N_go (x : N) (s : string) :
  no_LF s = true -> no_LF (pretty_N_go x s) = true.
Proof.
  revert s. induction (N.lt_wf_0 x) as [x _ IH]. intros s Hs.
  destruct (decide (x = 0)%N) as [->|Hx]; [by rewrite pretty_N_go_0|].
  rewrite pretty_N_go_step by lia.
  apply IH; [apply N.div_lt; lia|]. by rewrite no_LF_pretty_N_char.
Qed.

Lemma no_LF_pretty_N (x : N) : no_LF (pretty x) = true.
Proof.
  unfold pretty, pretty_N. case_decide; [reflexivity|].
  by apply no_LF_pretty_N_go.
Qed.

Lemma no_LF_pretty_nat (n : nat) : no_LF (pretty n) = true.
Proof. apply no_LF_pretty_N. Qed.

Lemma no_LF_pretty_Z (z : Z) : no_LF (pretty z) = true.
Proof.
  destruct z as [|p|p]; [reflexivity|apply no_LF_pretty_N|].
  unfold pretty, pretty_Z. rewrite no_LF_app. apply (no_LF_pretty_N (Npos p)).
Qed.

Lemma no_LF_ToString (n : intnum) : no_LF (ToString n) = true.
Proof. destruct n; [reflexivity|apply no_LF_pretty_Z]. Qed.

Lemma no_LF_fill (n : nat) (pad cur : string) :
  no_LF pad = true -> no_LF cur = true -> no_LF (fill n pad cur) = true.
Proof.
  intros Hpad. revert cur. induction n as [|n IH]; intros cur Hcur; [reflexivity|].
  simpl. destruct cur as [|c r].
  - destruct pad as [|c r]; [reflexivity|].
    simpl in *. apply andb_true_iff in Hpad as [-> Hr]. simpl.
    apply IH. exact Hr.
  - simpl in *. apply andb_true_iff in Hcur as [-> Hr]. simpl. by apply IH.
Qed.

Lemma no_LF_padStart (n : nat) (pad s : string) :
  no_LF pad = true -> no_LF s = true -> no_LF (padStart n pad s) = true.
Proof.
  intros Hpad Hs. unfold padStart. case_match; [exact Hs|].
  rewrite no_LF_app, Hs, no_LF_fill by assumption. reflexivity.
Qed.

Lemma no_LF_formatSRTTime (tz : Date.time_zone) (seconds : float) : no_LF (formatSRTTime tz seconds) = true.
Proof.
  unfold formatSRTTime. cbv zeta.
  rewrite !no_LF_app, !no_LF_padStart; auto using no_LF_ToString.
Qed.

(** ** The converters, word by word *)

(** C3: the SRT document of any sequence of words, the empty one included
    (it gives the empty string), is made of one block per word; the block
    of the word at position [i] starts with the index line [i + 1], goes
    on with the line [start --> end] and with the text of the word, and
    ends with a blank line. *)
Theorem convertToSRT_numbered_blocks (tz : Date.time_zone) (ws : list aligned_word) :
  convertToSRT tz [] = ""
  /\ exists blocks : list string,
       convertToSRT tz ws = concat_strings blocks
       /\ length blocks = length ws
       /\ forall (i : nat) (w : aligned_word), ws !! i = Some w ->
            exists index_line stamp_line : string,
              blocks !! i
              = Some (index_line +:+ LF +:+ stamp_line +:+ LF +:+ word w +:+ LF +:+ LF)
              /\ index_line = pretty (i + 1)%nat
              /\ stamp_line
                 = formatSRTTime tz (start_s w) +:+ " --> " +:+ formatSRTTime tz (end_s w)
              /\ no_LF index_line = true
              /\ no_LF stamp_line = true.
Proof.
  split; [reflexivity|].
  exists (imap (srt_block tz) ws). split; [apply convertToSRT_blocks|].
  split; [apply length_imap|].
  intros i w Hw. eexists _, _. split; [|split; [reflexivity|split; [reflexivity|]]].
  - rewrite list_lookup_imap, Hw. simpl. unfold srt_block.
    by rewrite !append_assoc.
  - split; [apply no_LF_pretty_nat|].
    by rewrite !no_LF_app, !no_LF_formatSRTTime.
Qed.

(** C5: for both converters the piece at position [i] of the document is
    written from the word at position [i] of the input; there are as many
    pieces as words, so none is dropped, merged or moved. *)
Theorem converters_preserve_order (tz : Date.time_zone) (ws : list aligned_word) :
  exists blocks lrc_lines : list string,
    convertToSRT tz ws = concat_strings blocks
    /\ convertToLRC tz ws = concat_strings lrc_lines
    /\ length blocks = length ws
    /\ length lrc_lines = length ws
    /\ forall (i : nat) (w : aligned_word), ws !! i = Some w ->
         blocks !! i = Some (srt_block tz i w) /\ lrc_lines !! i = Some (lrc_line tz w).
Proof.
  exists (imap (srt_block tz) ws), (map (lrc_line tz) ws).
  split; [apply convertToSRT_blocks|]. split; [apply convertToLRC_lines|].
  split; [apply length_imap|]. split; [apply length_map|].
  intros i w Hw. split.
  - by rewrite list_lookup_imap, Hw.
  - change (map (lrc_line tz) ws) with (lrc_line tz <$> ws). by rewrite list_lookup_fmap, Hw.
Qed.

(** C9: two sequences of words of the same length that agree, position by
    position, on the text and on the start time have the same LRC
    document, whatever their end times. *)
Theorem convertToLRC_ignores_end_s (tz : Date.time_zone) (xs ys : list aligned_word) :
  length xs = length ys ->
  (forall (i : nat) (x y : aligned_word),
      xs !! i = Some x -> ys !! i = Some y ->
      word x = word y /\ start_s x = start_s y) ->
  convertToLRC tz xs = convertToLRC tz ys.
Proof.
  rewrite !convertToLRC_lines. revert ys.
  induction xs as [|x xs IH]; intros [|y ys] Hlen Hagree; simplify_eq/=; [reflexivity|].
  destruct (Hagree 0%nat x y eq_refl eq_refl) as [Hword Hstart].
  rewrite (IH ys) by (try done; intros i; apply (Hagree (S i))).
  unfold lrc_line. by rewrite Hword, Hstart.
Qed.

Lemma convertToLRC_ignores_end_s_witness :
  convertToLRC universal [AlignedWord "la" 0.5%float 1.0%float; AlignedWord "di" 2.0%float 2.5%float]
  = convertToLRC universal [AlignedWord "la" 0.5%float 7.0%float; AlignedWord "di" 2.0%float 9.0%float].
Proof.
  apply convertToLRC_ignores_end_s; [reflexivity|].
  intros [|[|i]] x y Hx Hy; simplify_eq/=; by split.
Defined.

(** ** The lines of an LRC document *)

Lemma lines_cons_line (t rest : string) :
  no_LF t = true -> lines (t +:+ LF +:+ rest) = t :: lines rest.
Proof.
  induction t as [|c t IH]; intros Ht; [reflexivity|].
  simpl in Ht. apply andb_true_iff in Ht as [Hc Ht].
  rewrite append_cons. simpl. apply negb_true_iff in Hc. rewrite Hc.
  by rewrite (IH Ht).
Qed.

Lemma no_LF_formatLRCTime (tz : Date.time_zone) (seconds : float) : no_LF (formatLRCTime tz seconds) = true.
Proof.
  unfold formatLRCTime. cbv zeta.
  rewrite !no_LF_app, !no_LF_padStart; auto using no_LF_ToString.
Qed.

Lemma lines_convertToLRC (tz : Date.time_zone) (ws : list aligned_word) :
  Forall (fun w => no_LF (word w) = true) ws ->
  lines (convertToLRC tz ws) = map (fun w => formatLRCTime tz (start_s w) +:+ word w) ws.
Proof.
  rewrite convertToLRC_lines. induction 1 as [|w ws Hw _ IH]; [reflexivity|].
  rewrite !map_cons, concat_strings_cons, <- IH. unfold lrc_line at 1.
  rewrite <- (append_assoc (formatLRCTime tz (start_s w)) (word w) LF), (append_assoc _ LF).
  apply lines_cons_line. by rewrite no_LF_app, no_LF_formatLRCTime, Hw.
Qed.

(** ** Two digits *)

Lemma padStart_two_digits (n : Z) :
  0 <= n < 100 -> padStart 2 "0" (pretty n) = two_digits n.
Proof.
  intros Hn.
  assert (forallb (fun k : nat =>
                     String.eqb (padStart 2 "0" (pretty (Z.of_nat k)))
                                (two_digits (Z.of_nat k)))
                  (seq 0 100) = true) as Hall by (vm_compute; reflexivity).
  rewrite forallb_forall in Hall. specialize (Hall (Z.to_nat n)).
  rewrite Z2Nat.id in Hall by lia. apply String.eqb_eq, Hall, in_seq. lia.
Qed.

Lemma is_digit_digit (d : Z) : 0 <= d < 10 -> is_digit (Date.digit d) = true.
Proof.
  intros Hd.
  assert (forallb (fun k : nat => is_digit (Date.digit (Z.of_nat k))) (seq 0 10) = true)
    as Hall by (vm_compute; reflexivity).
  rewrite forallb_forall in Hall. specialize (Hall (Z.to_nat d)).
  rewrite Z2Nat.id in Hall by lia. apply Hall, in_seq. lia.
Qed.

Lemma has_lrc_stamp_two_digits (m s h : Z) (rest : string) :
  0 <= m < 100 -> 0 <= s < 100 -> 0 <= h < 100 ->
  has_lrc_stamp (("[" +:+ two_digits m +:+ ":" +:+ two_digits s +:+ "."
                  +:+ two_digits h +:+ "]") +:+ rest) = true.
Proof.
  intros Hm Hs Hh. lazy [String.append two_digits has_lrc_stamp].
  rewrite !is_digit_digit; [reflexivity|..];
    try (apply Z.mod_pos_bound; lia);
    (split; [apply Z.div_pos; lia|apply Z.div_lt_upper_bound; lia]).
Qed.

(** What [formatLRCTime] writes when the start is a time. *)
Lemma formatLRCTime_time (tz : Date.time_zone) (w : aligned_word) (t : Z) :
  start_time tz w = Int t ->
  formatLRCTime tz (start_s w)
  = "[" +:+ two_digits (Date.MinFromTime t) +:+ ":" +:+ two_digits (Date.SecFromTime t)
    +:+ "." +:+ two_digits (Date.msFromTime t / 10) +:+ "]".
Proof.
  unfold start_time, formatLRCTime. cbv zeta. intros ->. simpl.
  unfold Date.MinFromTime, Date.SecFromTime, Date.msFromTime, Date.msPerSecond.
  rewrite !padStart_two_digits; [reflexivity|..];
    try (pose proof (Z.mod_pos_bound (t / Date.msPerMinute) 60); lia);
    try (pose proof (Z.mod_pos_bound (t / 1000) 60); lia).
  pose proof (Z.mod_pos_bound t 1000).
  split; [apply Z.div_pos; lia|apply Z.div_lt_upper_bound; lia].
Qed.

Lemma formatLRCTime_fields_bounded (t : Z) :
  0 <= Date.MinFromTime t < 100 /\ 0 <= Date.SecFromTime t < 100
  /\ 0 <= Date.msFromTime t / 10 < 100.
Proof.
  unfold Date.MinFromTime, Date.SecFromTime, Date.msFromTime, Date.msPerSecond.
  pose proof (Z.mod_pos_bound (t / Date.msPerMinute) 60).
  pose proof (Z.mod_pos_bound (t / 1000) 60).
  pose proof (Z.mod_pos_bound t 1000).
  repeat split; try lia; [apply Z.div_pos; lia|apply Z.div_lt_upper_bound; lia].
Qed.

(** C4, as the code has it: in every time zone, when no word holds a line
    feed and the date of every start is a time (the start times 1000 is
    finite, and what [setMilliseconds] leaves is within 8.64e15 ms of the
    epoch), the LRC document has exactly one line per word, the line of a
    word is its stamp followed by its text, and the stamp is [[MM:SS.hh]]
    with [hh] the millisecond field divided by 10, rounded down. The empty
    sequence gives the empty string. *)
Theorem convertToLRC_stamped_lines (tz : Date.time_zone) (ws : list aligned_word) :
  Forall (fun w => no_LF (word w) = true /\ is_time (start_time tz w) = true) ws ->
  convertToLRC tz [] = ""
  /\ lrc_one_stamped_line_per_word tz ws
  /\ lines (convertToLRC tz ws) = map (fun w => formatLRCTime tz (start_s w) +:+ word w) ws
  /\ Forall (fun w => exists t : Z,
                 start_time tz w = Int t
                 /\ formatLRCTime tz (start_s w)
                    = "[" +:+ two_digits (Date.MinFromTime t)
                      +:+ ":" +:+ two_digits (Date.SecFromTime t)
                      +:+ "." +:+ two_digits (Date.msFromTime t / 10) +:+ "]") ws.
Proof.
  intros Hws. split; [reflexivity|].
  assert (Forall (fun w => no_LF (word w) = true) ws) as Hnl
    by (eapply Forall_impl; [exact Hws|]; by intros w [? _]).
  assert (Forall (fun w => exists t : Z,
                 start_time tz w = Int t
                 /\ formatLRCTime tz (start_s w)
                    = "[" +:+ two_digits (Date.MinFromTime t)
                      +:+ ":" +:+ two_digits (Date.SecFromTime t)
                      +:+ "." +:+ two_digits (Date.msFromTime t / 10) +:+ "]") ws)
    as Hstamps.
  { eapply Forall_impl; [exact Hws|]. intros w [_ Ht].
    destruct (start_time tz w) as [|t] eqn:Hstart; [discriminate|].
    exists t. split; [reflexivity|]. by apply formatLRCTime_time. }
  unfold lrc_one_stamped_line_per_word. rewrite (lines_convertToLRC tz ws Hnl).
  split; [split|split]; [apply length_map| |reflexivity|exact Hstamps].
  apply Forall_map. eapply Forall_impl; [exact Hstamps|].
  intros w (t & _ & ->). cbv beta.
  destruct (formatLRCTime_fields_bounded t) as (? & ? & ?).
  by apply has_lrc_stamp_two_digits.
Qed.

Lemma convertToLRC_stamped_lines_witness :
  lrc_one_stamped_line_per_word eastern
    [AlignedWord "la" 0.5%float 1.0%float; AlignedWord "di" 61.25%float 62.5%float].
Proof.
  apply (convertToLRC_stamped_lines eastern
           [AlignedWord "la" 0.5%float 1.0%float; AlignedWord "di" 61.25%float 62.5%float]).
  repeat constructor.
Defined.

(** A word that holds a line feed takes two lines, and a start beyond the
    range of [Date] is stamped [[NaN:NaN.NaN]]. *)
Lemma convertToLRC_lines_counterexample :
  ~ lrc_one_stamped_line_per_word universal [AlignedWord ("la" +:+ LF +:+ "la") 0.5%float 1.0%float]
  /\ ~ lrc_one_stamped_line_per_word universal [AlignedWord "la" 1e13%float 1.0%float].
Proof.
  split; intros [Hlen Hstamp].
  - vm_compute in Hlen. discriminate.
  - apply Forall_inv in Hstamp. vm_compute in Hstamp. discriminate.
Qed.

(** ** The fetch client *)

Lemma bind_run {A B : Type} (m : M A) (k : A -> M B) (env : environment) (s : state) :
  (m ≫= k) env s
  = match m env s with
    | (Return a, s') => k a env s'
    | (Throw e, s') => (Throw e, s')
    end.
Proof. reflexivity. Qed.

(** C1, as the code has it: what [fetchAlignedWords] comes to, by what came
    back for the request. An answer of status 401: it throws the AuthError,
    and does not return. No answer at all, or an answer of a status other
    than 401 outside 200 to 299: it returns null. An answer of any status
    from 200 to 299, not of 200 alone: it returns the array of
    [aligned_words] when the body has one, and null when the body is not
    JSON or has none. *)
Theorem fetchAlignedWords_outcomes (env : environment) (s : state) (songId token : string) :
  let answer := remote env (requests s) (apiUrl_of songId) token in
  let result := fst (fetchAlignedWords songId token env s) in
  (forall res : http_response,
      answer = Answered res -> status res = 401 ->
      result = Throw AuthError /\ result <> Return None)
  /\ (forall reason : string, answer = Unanswered reason -> result = Return None)
  /\ (forall res : http_response,
         answer = Answered res -> status res <> 401 -> ~ 200 <= status res < 300 ->
         result = Return None)
  /\ (forall res : http_response,
         answer = Answered res -> 200 <= status res < 300 ->
         match data res with
         | Parsed (Some ws) => result = Return (Some ws)
         | _ => result = Return None
         end).
Proof.
  intros answer result. subst answer result.
  unfold fetchAlignedWords, try_catch, apiUrl_of. rewrite bind_run.
  unfold axios_get, settle, validateStatus.
  split; [|split; [|split]].
  - intros res -> Hstatus. rewrite Hstatus. simpl. rewrite Hstatus. by split.
  - intros reason ->. reflexivity.
  - intros res -> Hstatus Hrange.
    replace ((200 <=? status res) && (status res <? 300)) with false
      by (symmetry; apply andb_false_iff; rewrite Z.leb_gt, Z.ltb_ge; lia).
    simpl. apply Z.eqb_neq in Hstatus. by rewrite Hstatus.
  - intros res -> Hrange.
    replace ((200 <=? status res) && (status res <? 300)) with true
      by (symmetry; apply andb_true_iff; rewrite Z.leb_le, Z.ltb_lt; lia).
    simpl. by destruct (data res) as [text|[ws|]].
Qed.

(** The fetch as the specification words it fails on an answer of status
    201 that holds the words: the words are returned, not null. *)
Lemma fetchAlignedWords_201_counterexample :
  ~ fetch_by_status created (fresh ∅) "song" "token"
  /\ remote created 0 (apiUrl_of "song") "token"
     = Answered (HttpResponse 201 (Parsed (Some [hello])))
  /\ fst (fetchAlignedWords "song" "token" created (fresh ∅)) = Return (Some [hello]).
Proof.
  split; [|split; reflexivity].
  unfold fetch_by_status. vm_compute. discriminate.
Qed.

(** ** The loop of the driver *)

Lemma try_catch_run {A : Type} (m : M A) (handler : error -> M A)
    (env : environment) (s : state) :
  try_catch m handler env s
  = match m env s with
    | (Return a, s') => (Return a, s')
    | (Throw e, s') => handler e env s'
    end.
Proof. reflexivity. Qed.

Section Loop.

Variable env : environment.
Variables fileType token : string.

(** The body of the loop never throws: what its [try] throws, its [catch]
    keeps. *)
Lemma loop_body_returns (songId : string) (s : state) :
  exists (c : completion) (s' : state),
    loop_body fileType token songId env s = (Return c, s').
Proof.
  unfold loop_body. rewrite bind_run. simpl. rewrite try_catch_run, bind_run.
  destruct (fetchAlignedWords songId token env _) as [[[words|]|e] s1].
  - rewrite bind_run.
    destruct (saveFile _ fileType songId env s1) as [[[]|e] s2]; simpl.
    + by eexists _, _.
    + destruct (String.eqb (message e) "TOKEN_INVALID"); by eexists _, _.
  - by eexists _, _.
  - destruct (String.eqb (message e) "TOKEN_INVALID"); by eexists _, _.
Qed.

Lemma for_of_loop_body_returns (songIds : list string) (s : state) :
  exists s' : state, for_of songIds (loop_body fileType token) env s = (Return tt, s').
Proof.
  revert s. induction songIds as [|songId rest IH]; intros s; [by eexists|].
  simpl. rewrite bind_run.
  destruct (loop_body_returns songId s) as (c & s1 & ->).
  destruct c; [apply IH|by eexists].
Qed.

(** C6: the loop of [main], at any identifier of the list ([s] is the state
    the earlier ones left). A fetch that returns null is followed by the
    warning and by the rest of the list; a fetch that throws the AuthError
    is followed by one message and by nothing of the rest of the list; and
    in every run the loop returns and the last thing printed is the final
    message. *)
Theorem processSongs_null_auth_done :
  (forall (s s1 : state) (songId : string) (rest : list string),
      fetchAlignedWords songId token env (record (fetching songId) s) = (Return None, s1) ->
      processSongs (songId :: rest) fileType token env s
      = processSongs rest fileType token env (record (warning_for songId) s1))
  /\ (forall (s s1 : state) (songId : string) (rest : list string),
         fetchAlignedWords songId token env (record (fetching songId) s)
         = (Throw AuthError, s1) ->
         processSongs (songId :: rest) fileType token env s
         = (Return tt, record all_done (record token_is_invalid s1)))
  /\ (forall (s : state) (songIds : list string),
         exists s' : state,
           processSongs songIds fileType token env s = (Return tt, s')
           /\ exists before : list event, trace s' = before ++ [all_done]).
Proof.
  split; [|split].
  - intros s s1 songId rest Hfetch. unfold processSongs. rewrite !bind_run. simpl.
    rewrite bind_run. unfold loop_body at 1.
    rewrite bind_run. simpl. rewrite try_catch_run, bind_run.
    unfold fetching in Hfetch. rewrite Hfetch. reflexivity.
  - intros s s1 songId rest Hfetch. unfold processSongs. rewrite !bind_run. simpl.
    rewrite bind_run. unfold loop_body at 1.
    rewrite bind_run. simpl. rewrite try_catch_run, bind_run.
    unfold fetching in Hfetch. rewrite Hfetch. reflexivity.
  - intros s songIds. unfold processSongs. rewrite bind_run.
    destruct (for_of_loop_body_returns songIds s) as (s1 & ->).
    eexists. split; [reflexivity|]. by exists (trace s1).
Qed.

End Loop.

(** ** File names *)

Lemma length_append (s t : string) :
  String.length (s +:+ t) = (String.length s + String.length t)%nat.
Proof.
  induction s as [|c s IH]; [reflexivity|].
  rewrite append_cons. simpl. by rewrite IH.
Qed.

Lemma append_inj_length (a a' r r' : string) :
  String.length a = String.length a' -> a +:+ r = a' +:+ r' -> a = a' /\ r = r'.
Proof.
  revert a'. induction a as [|c a IH]; intros [|c' a'] Hlen Heq;
    simpl in Hlen; try discriminate.
  - by split.
  - rewrite !append_cons in Heq. injection Heq as -> Heq. injection Hlen as Hlen.
    destruct (IH a' Hlen Heq) as [-> ->]. by split.
Qed.

Lemma append_inj_r (s1 s2 u : string) : s1 +:+ u = s2 +:+ u -> s1 = s2.
Proof.
  intros Heq. refine (proj1 (append_inj_length s1 s2 u u _ Heq)).
  apply (f_equal String.length) in Heq. rewrite !length_append in Heq. lia.
Qed.

Lemma length_digits (w : nat) (n : Z) : String.length (Date.digits w n) = w.
Proof.
  revert n. induction w as [|w IH]; intros n; [reflexivity|].
  simpl. rewrite length_append, IH. simpl. lia.
Qed.

Lemma digit_inj (a b : Z) : Date.digit a = Date.digit b -> a mod 10 = b mod 10.
Proof.
  unfold Date.digit. intros Heq. apply (f_equal nat_of_ascii) in Heq.
  pose proof (Z.mod_pos_bound a 10). pose proof (Z.mod_pos_bound b 10).
  rewrite !nat_ascii_embedding in Heq by lia. lia.
Qed.

Lemma digits_inj (w : nat) (n n' : Z) :
  0 <= n < 10 ^ Z.of_nat w -> 0 <= n' < 10 ^ Z.of_nat w ->
  Date.digits w n = Date.digits w n' -> n = n'.
Proof.
  revert n n'. induction w as [|w IH]; intros n n' Hn Hn' Heq.
  - change (10 ^ Z.of_nat 0) with 1 in *. lia.
  - rewrite Nat2Z.inj_succ, Z.pow_succ_r in Hn, Hn' by lia. simpl in Heq.
    apply append_inj_length in Heq as [Hhigh Hlow]; [|by rewrite !length_digits].
    injection Hlow as Hlow. apply digit_inj in Hlow.
    apply IH in Hhigh; [|split; [apply Z.div_pos|apply Z.div_lt_upper_bound]; lia..].
    rewrite (Z.div_mod n 10), (Z.div_mod n' 10) by lia. lia.
Qed.

Lemma digit_is_plain (n : Z) :
  Ascii.eqb (Date.digit n) ":"%char || Ascii.eqb (Date.digit n) "."%char = false.
Proof.
  unfold Date.digit. pose proof (Z.mod_pos_bound n 10).
  assert (Z.to_nat (n mod 10) < 10)%nat as Hk by lia.
  revert Hk. generalize (Z.to_nat (n mod 10)). intros k Hk.
  do 10 (destruct k as [|k]; [reflexivity|]). lia.
Qed.

Lemma replace_colon_dot_app (s t : string) :
  replace_colon_dot (s +:+ t) = replace_colon_dot s +:+ replace_colon_dot t.
Proof.
  induction s as [|c s IH]; [reflexivity|].
  rewrite append_cons. simpl. by rewrite IH.
Qed.

Lemma replace_colon_dot_digits (w : nat) (n : Z) :
  replace_colon_dot (Date.digits w n) = Date.digits w n.
Proof.
  revert n. induction w as [|w IH]; intros n; [reflexivity|].
  change (Date.digits (S w) n) with (Date.digits w (n / 10) +:+ String (Date.digit n) "").
  rewrite replace_colon_dot_app, IH. f_equal.
  change (replace_colon_dot (String (Date.digit n) ""))
    with (String (if Ascii.eqb (Date.digit n) ":"%char || Ascii.eqb (Date.digit n) "."%char
                  then "-"%char else Date.digit n) "").
  by rewrite digit_is_plain.
Qed.

(** The time stamp of a file name, in the years that take four digits. *)
Lemma timestamp_of_four_digits (t : Z) :
  0 <= Date.YearFromTime t <= 9999 ->
  timestamp_of t
  = Date.digits 4 (Date.YearFromTime t) +:+ "-" +:+ Date.digits 2 (Date.MonthFromTime t + 1)
    +:+ "-" +:+ Date.digits 2 (Date.DateFromTime t)
    +:+ "T" +:+ Date.digits 2 (Date.HourFromTime t)
    +:+ "-" +:+ Date.digits 2 (Date.MinFromTime t)
    +:+ "-" +:+ Date.digits 2 (Date.SecFromTime t)
    +:+ "-" +:+ Date.digits 3 (Date.msFromTime t) +:+ "Z".
Proof.
  intros Hy. unfold timestamp_of, Date.toISOString. cbv zeta.
  replace ((0 <=? Date.YearFromTime t) && (Date.YearFromTime t <=? 9999)) with true
    by (symmetry; apply andb_true_iff; split; apply Z.leb_le; lia).
  rewrite !replace_colon_dot_app, !replace_colon_dot_digits. reflexivity.
Qed.

(** ** The calendar *)

Lemma day_of_era_range (t : Z) : 0 <= Date.day_of_era t < 146097.
Proof. apply Z.mod_pos_bound. lia. Qed.

Lemma year_of_era_range (doe : Z) :
  0 <= doe < 146097 -> 0 <= Date.year_of_era doe < 400.
Proof. intros H. unfold Date.year_of_era. Z.to_euclidean_division_equations; lia. Qed.

Lemma day_of_year_range (doe : Z) :
  0 <= doe < 146097 -> 0 <= Date.day_of_year doe <= 365.
Proof.
  intros H. unfold Date.day_of_year, Date.year_of_era.
  Z.to_euclidean_division_equations; lia.
Qed.

Lemma month_from_march_range (doe : Z) :
  0 <= doe < 146097 -> 0 <= Date.month_from_march doe < 12.
Proof.
  intros H. pose proof (day_of_year_range doe H) as Hdoy. unfold Date.month_from_march.
  revert Hdoy. generalize (Date.day_of_year doe). intros doy Hdoy.
  Z.to_euclidean_division_equations; lia.
Qed.

Lemma MonthFromTime_range (t : Z) : 0 <= Date.MonthFromTime t < 12.
Proof.
  unfold Date.MonthFromTime. cbv zeta.
  pose proof (month_from_march_range _ (day_of_era_range t)).
  case_match; [apply Z.ltb_lt in H0|apply Z.ltb_ge in H0]; lia.
Qed.

Lemma DateFromTime_range (t : Z) : 1 <= Date.DateFromTime t <= 31.
Proof.
  unfold Date.DateFromTime. cbv zeta.
  pose proof (day_of_year_range _ (day_of_era_range t)) as Hdoy.
  unfold Date.month_from_march. revert Hdoy.
  generalize (Date.day_of_year (Date.day_of_era t)). intros doy Hdoy.
  Z.to_euclidean_division_equations; lia.
Qed.

(** Within an era the year, the month and the day of the month determine
    the day. *)
Lemma day_of_era_inj (doe1 doe2 : Z) :
  0 <= doe1 < 146097 -> 0 <= doe2 < 146097 ->
  Date.year_of_era doe1 = Date.year_of_era doe2 ->
  Date.month_from_march doe1 = Date.month_from_march doe2 ->
  Date.day_of_year doe1 - (153 * Date.month_from_march doe1 + 2) / 5
  = Date.day_of_year doe2 - (153 * Date.month_from_march doe2 + 2) / 5 ->
  doe1 = doe2.
Proof.
  intros H1 H2 Hyoe Hmp Hd. rewrite Hmp in Hd. unfold Date.day_of_year in Hd.
  rewrite Hyoe in Hd. cbv zeta in Hd. lia.
Qed.

Lemma Day_from_calendar (t1 t2 : Z) :
  Date.YearFromTime t1 = Date.YearFromTime t2 ->
  Date.MonthFromTime t1 = Date.MonthFromTime t2 ->
  Date.DateFromTime t1 = Date.DateFromTime t2 ->
  Date.Day t1 = Date.Day t2.
Proof.
  unfold Date.YearFromTime, Date.MonthFromTime, Date.DateFromTime. cbv zeta.
  intros Hy Hm Hd.
  pose proof (day_of_era_range t1) as Hdoe1. pose proof (day_of_era_range t2) as Hdoe2.
  pose proof (month_from_march_range _ Hdoe1) as Hmp1.
  pose proof (month_from_march_range _ Hdoe2) as Hmp2.
  pose proof (year_of_era_range _ Hdoe1) as Hyoe1.
  pose proof (year_of_era_range _ Hdoe2) as Hyoe2.
  assert (Date.month_from_march (Date.day_of_era t1)
          = Date.month_from_march (Date.day_of_era t2)) as Hmp.
  { revert Hm. repeat case_match;
      repeat match goal with
             | H : (_ <? _) = true |- _ => apply Z.ltb_lt in H
             | H : (_ <? _) = false |- _ => apply Z.ltb_ge in H
             end; lia. }
  rewrite Hmp in Hy.
  assert (Date.year_of_era (Date.day_of_era t1) = Date.year_of_era (Date.day_of_era t2)
          /\ Date.era t1 = Date.era t2) as [Hyoe Hera] by lia.
  assert (Date.day_of_era t1 = Date.day_of_era t2) as Hdoe
    by (apply day_of_era_inj; try assumption; lia).
  unfold Date.era, Date.day_of_era in Hera, Hdoe.
  pose proof (Z.div_mod (Date.Day t1 + 719468) 146097).
  pose proof (Z.div_mod (Date.Day t2 + 719468) 146097). lia.
Qed.

Lemma time_from_fields (t1 t2 : Z) :
  Date.Day t1 = Date.Day t2 ->
  Date.HourFromTime t1 = Date.HourFromTime t2 ->
  Date.MinFromTime t1 = Date.MinFromTime t2 ->
  Date.SecFromTime t1 = Date.SecFromTime t2 ->
  Date.msFromTime t1 = Date.msFromTime t2 ->
  t1 = t2.
Proof.
  unfold Date.Day, Date.HourFromTime, Date.MinFromTime, Date.SecFromTime,
    Date.msFromTime, Date.msPerDay, Date.msPerHour, Date.msPerMinute, Date.msPerSecond.
  intros. Z.to_euclidean_division_equations; lia.
Qed.

(** ** Time stamps and the times they are written from *)

Ltac split_field H Hfield :=
  apply append_inj_length in H as [Hfield H]; [|by rewrite !length_digits];
  apply (inj (String.app _)) in H.

Lemma timestamp_of_inj (t1 t2 : Z) :
  0 <= Date.YearFromTime t1 <= 9999 -> 0 <= Date.YearFromTime t2 <= 9999 ->
  timestamp_of t1 = timestamp_of t2 -> t1 = t2.
Proof.
  intros Hy1 Hy2 Heq. rewrite !timestamp_of_four_digits in Heq by assumption.
  split_field Heq Hyear. split_field Heq Hmonth. split_field Heq Hdate.
  split_field Heq Hhour. split_field Heq Hmin. split_field Heq Hsec.
  apply append_inj_length in Heq as [Hms _]; [|by rewrite !length_digits].
  pose proof (MonthFromTime_range t1). pose proof (MonthFromTime_range t2).
  pose proof (DateFromTime_range t1). pose proof (DateFromTime_range t2).
  apply digits_inj in Hyear; [|change (10 ^ Z.of_nat 4) with 10000; lia..].
  apply digits_inj in Hmonth; [|change (10 ^ Z.of_nat 2) with 100; lia..].
  apply digits_inj in Hdate; [|change (10 ^ Z.of_nat 2) with 100; lia..].
  apply digits_inj in Hhour;
    [|change (10 ^ Z.of_nat 2) with 100;
      pose proof (Z.mod_pos_bound (t1 / Date.msPerHour) 24);
      pose proof (Z.mod_pos_bound (t2 / Date.msPerHour) 24);
      unfold Date.HourFromTime; lia..].
  apply digits_inj in Hmin;
    [|change (10 ^ Z.of_nat 2) with 100;
      pose proof (Z.mod_pos_bound (t1 / Date.msPerMinute) 60);
      pose proof (Z.mod_pos_bound (t2 / Date.msPerMinute) 60);
      unfold Date.MinFromTime; lia..].
  apply digits_inj in Hsec;
    [|change (10 ^ Z.of_nat 2) with 100;
      pose proof (Z.mod_pos_bound (t1 / Date.msPerSecond) 60);
      pose proof (Z.mod_pos_bound (t2 / Date.msPerSecond) 60);
      unfold Date.SecFromTime; lia..].
  apply digits_inj in Hms;
    [|change (10 ^ Z.of_nat 3) with 1000;
      pose proof (Z.mod_pos_bound t1 1000); pose proof (Z.mod_pos_bound t2 1000);
      unfold Date.msFromTime, Date.msPerSecond; lia..].
  apply time_from_fields; try assumption.
  apply Day_from_calendar; [assumption|lia|assumption].
Qed.

(** C8, as the code has it: the names of two saves of the same song, in
    years that take four digits, differ exactly when the clock showed two
    different milliseconds; two saves in the same millisecond get the same
    name. *)
Theorem fileName_of_differs_with_clock (songId fileType : string) (t1 t2 : Z) :
  0 <= Date.YearFromTime t1 <= 9999 -> 0 <= Date.YearFromTime t2 <= 9999 ->
  fileName_of songId (timestamp_of t1) fileType
  = fileName_of songId (timestamp_of t2) fileType
  <-> t1 = t2.
Proof.
  intros Hy1 Hy2. split; [|by intros ->].
  unfold fileName_of. intros Heq.
  do 3 apply (inj (String.app _)) in Heq. apply append_inj_r in Heq.
  by apply timestamp_of_inj.
Qed.

Lemma fileName_of_differs_with_clock_witness :
  fileName_of "song" (timestamp_of 1700000000123) "lrc"
  <> fileName_of "song" (timestamp_of 1700000000124) "lrc".
Proof.
  intros Heq.
  apply (fileName_of_differs_with_clock "song" "lrc" 1700000000123 1700000000124) in Heq;
    [discriminate|vm_compute; split; discriminate..].
Defined.

(** Two saves of the same song in the same millisecond: one name, and one
    file, in which the second document has taken the place of the first. *)
Lemma saveFile_same_millisecond_counterexample :
  let after := snd (processSongs ["song"; "song"] "lrc" "token" same_millisecond (fresh ∅)) in
  let name := "/home/user/output/aligned_words_song_2023-11-14T22-13-20-123Z.lrc" in
  written (trace after) = [name; name]
  /\ ~ NoDup (written (trace after))
  /\ files after !! name = Some ("[00:00.50]second" +:+ LF).
Proof.
  cbv zeta.
  assert (written (trace (snd (processSongs ["song"; "song"] "lrc" "token"
                                 same_millisecond (fresh ∅))))
          = ["/home/user/output/aligned_words_song_2023-11-14T22-13-20-123Z.lrc";
             "/home/user/output/aligned_words_song_2023-11-14T22-13-20-123Z.lrc"])
    as Hwritten by (vm_compute; reflexivity).
  split; [exact Hwritten|]. split.
  - rewrite Hwritten. intros Hnodup. apply NoDup_cons in Hnodup as [Hnotin _].
    apply Hnotin. left.
  - vm_compute. reflexivity.
Qed.

(** ** The token store *)

(** C7, where the code departs from it: the operator declines the saved
    token and types a new one; [loadToken] writes it to the token file and
    returns it without a single request, although the service would have
    refused it. *)
Theorem loadToken_declined_is_not_probed :
  let run := loadToken declining (fresh {[ "/home/user/token.txt" := "stale-token" ]}) in
  fst run = Return "fresh-token"
  /\ requested (trace (snd run)) = []
  /\ files (snd run) !! "/home/user/token.txt" = Some "fresh-token"
  /\ declines declining (fresh {[ "/home/user/token.txt" := "stale-token" ]}) = true.
Proof. cbv zeta. repeat split; vm_compute; reflexivity. Qed.

Lemma requested_app (a b : list event) :
  requested (a ++ b) = requested a ++ requested b.
Proof. apply flat_map_app. Qed.

Ltac run H :=
  cbv [loadToken mbind M_bind mret M_ret existsSync readFileSync ask writeFileSync
       console_log console_error try_catch fetchAlignedWords axios_get settle record
       throw orb files dirs prompts requests readings trace message response] in H.

Ltac count_requests :=
  simplify_eq; rewrite ?requested_app; simpl; rewrite ?List.app_nil_r;
  first [reflexivity | by eexists].

Ltac branches H := repeat (case_match; try discriminate; run H).

(** The requests of [loadToken], on every path that returns a token: none
    when the saved token is declined, and otherwise exactly one, for the
    identifier [dummy-check]; the token typed after a refusal is never
    sent. *)
Lemma loadToken_requests (env : environment) (s s' : state) (tok : string) :
  loadToken env s = (Return tok, s') ->
  if declines env s then requested (trace s') = requested (trace s)
  else exists t : string,
      requested (trace s') = requested (trace s) ++ [(apiUrl_of "dummy-check", t)].
Proof.
  destruct s as [fs ds np nr nc tr]. intros Hrun. run Hrun.
  cbv [declines files prompts trace].
  destruct (fs !! TOKEN_FILE env) as [content|] eqn:Hfile.
  - change (bool_decide (is_Some (Some content))) with true in Hrun. run Hrun.
    rewrite Hfile in Hrun.
    destruct (Boolean (trim content)) eqn:Hsaved; run Hrun.
    + destruct (String.eqb (toLowerCase (operator env np)) "n") eqn:Hchoice; run Hrun.
      * destruct (writable env (TOKEN_FILE env)); run Hrun; count_requests.
      * destruct (trim content) as [|c r] eqn:Htrim; [discriminate Hsaved|]. run Hrun.
        branches Hrun; count_requests.
    + destruct (trim content) as [|c r] eqn:Htrim; [|discriminate Hsaved]. run Hrun.
      branches Hrun; count_requests.
  - change (bool_decide (is_Some None)) with false in Hrun. run Hrun.
    branches Hrun; count_requests.
Qed.

(** The saved token is reused and the service refuses it: one request, one
    more prompt, and the answer is written to the token file and returned
    as it is. *)
Example loadToken_reused_and_refused :
  let env :=
    {| cwd := "/home/user"; zone := universal;
       operator := fun n => match n with O => "" | _ => " second-token " end;
       remote := remote declining; clock := clock declining;
       writable := writable declining |} in
  let run := loadToken env (fresh {[ "/home/user/token.txt" := "stale-token" ]}) in
  fst run = Return "second-token"
  /\ trace (snd run)
     = [Printed "🔑 Found saved token: stale-token...";
        Asked "Use this token? (Y/n): " "";
        Printed "👍 Using saved token.";
        Requested (apiUrl_of "dummy-check") "stale-token";
        Printed "❌ Token expired or invalid. Please enter a new one.";
        Asked "Enter Bearer token: " " second-token ";
        Wrote "/home/user/token.txt" "second-token";
        Printed "💾 Token saved."].
Proof. cbv zeta. split; vm_compute; reflexivity. Qed.

(** ** A run of the loop *)

(** Four identifiers: the first is saved, the second has no words, the
    third is refused with a 401, and the fourth is never asked for. *)
Example processSongs_run :
  let env :=
    {| cwd := "/home/user"; zone := universal;
       operator := fun _ => "";
       remote := fun n _ _ =>
         match n with
         | O => Answered (HttpResponse 200 (Parsed (Some [hello])))
         | 1%nat => Answered (HttpResponse 200 (Parsed None))
         | _ => Answered (HttpResponse 401 (Parsed None))
         end;
       clock := fun _ => 1700000000123;
       writable := fun _ => true |} in
  let run := processSongs ["one"; "two"; "three"; "four"] "lrc" "token" env (fresh ∅) in
  fst run = Return tt
  /\ trace (snd run)
     = [fetching "one";
        Requested (apiUrl_of "one") "token";
        MadeDir "/home/user/output";
        Wrote "/home/user/output/aligned_words_one_2023-11-14T22-13-20-123Z.lrc"
              ("[00:01.50]hello" +:+ LF);
        Printed "✅ Saved: /home/user/output/aligned_words_one_2023-11-14T22-13-20-123Z.lrc";
        fetching "two";
        Requested (apiUrl_of "two") "token";
        warning_for "two";
        fetching "three";
        Requested (apiUrl_of "three") "token";
        token_is_invalid;
        all_done].
Proof. cbv zeta. split; vm_compute; reflexivity. Qed.

(* ================================================================== *)
(** * Part V: further properties of the script *)
(* ================================================================== *)

(** ** The SRT time format *)

Lemma padStart_digits_2 (n : Z) :
  0 <= n < 100 -> padStart 2 "0" (pretty n) = Date.digits 2 n.
Proof.
  intros Hn.
  assert (forallb (fun k : nat =>
                     String.eqb (padStart 2 "0" (pretty (Z.of_nat k)))
                                (Date.digits 2 (Z.of_nat k)))
                  (seq 0 100) = true) as Hall by (vm_compute; reflexivity).
  rewrite forallb_forall in Hall. specialize (Hall (Z.to_nat n)).
  rewrite Z2Nat.id in Hall by lia. apply String.eqb_eq, Hall, in_seq. lia.
Qed.

Lemma padStart_digits_3 (n : Z) :
  0 <= n < 1000 -> padStart 3 "0" (pretty n) = Date.digits 3 n.
Proof.
  intros Hn.
  assert (forallb (fun k : nat =>
                     String.eqb (padStart 3 "0" (pretty (Z.of_nat k)))
                                (Date.digits 3 (Z.of_nat k)))
                  (seq 0 1000) = true) as Hall by (vm_compute; reflexivity).
  rewrite forallb_forall in Hall. specialize (Hall (Z.to_nat n)).
  rewrite Z2Nat.id in Hall by lia. apply String.eqb_eq, Hall, in_seq. lia.
Qed.

Lemma time_fields_bounded (t : Z) :
  0 <= Date.HourFromTime t < 24 /\ 0 <= Date.MinFromTime t < 60
  /\ 0 <= Date.SecFromTime t < 60 /\ 0 <= Date.msFromTime t < 1000.
Proof.
  unfold Date.HourFromTime, Date.MinFromTime, Date.SecFromTime, Date.msFromTime,
    Date.msPerSecond.
  pose proof (Z.mod_pos_bound (t / Date.msPerHour) 24).
  pose proof (Z.mod_pos_bound (t / Date.msPerMinute) 60).
  pose proof (Z.mod_pos_bound (t / 1000) 60).
  pose proof (Z.mod_pos_bound t 1000). lia.
Qed.

Lemma formatSRTTime_digits (tz : Date.time_zone) (seconds : float) (t : Z) :
  time_of tz seconds = Int t ->
  formatSRTTime tz seconds
  = Date.digits 2 (Date.HourFromTime t) +:+ ":" +:+ Date.digits 2 (Date.MinFromTime t)
    +:+ ":" +:+ Date.digits 2 (Date.SecFromTime t)
    +:+ "," +:+ Date.digits 3 (Date.msFromTime t).
Proof.
  unfold time_of, formatSRTTime. cbv zeta. intros ->.
  destruct (time_fields_bounded t) as (Hh & Hm & Hs & Hms).
  unfold Date.getUTCHours, Date.getUTCMinutes, Date.getUTCSeconds,
    Date.getUTCMilliseconds, Date.getter, ToString.
  rewrite !padStart_digits_2, padStart_digits_3 by lia. reflexivity.
Qed.

(** X1: in every time zone, when the date that [formatSRTTime] has set is
    a time, it writes [HH:MM:SS,mmm], twelve code units: two digits for the
    UTC hour, minute and second of the time value of the date and three for
    its milliseconds. *)
Theorem formatSRTTime_time (tz : Date.time_zone) (seconds : float) (t : Z) :
  time_of tz seconds = Int t ->
  formatSRTTime tz seconds
  = Date.digits 2 (Date.HourFromTime t) +:+ ":" +:+ Date.digits 2 (Date.MinFromTime t)
    +:+ ":" +:+ Date.digits 2 (Date.SecFromTime t)
    +:+ "," +:+ Date.digits 3 (Date.msFromTime t)
  /\ String.length (formatSRTTime tz seconds) = 12%nat.
Proof.
  intros Htime. rewrite (formatSRTTime_digits tz seconds t Htime).
  split; [reflexivity|]. by rewrite !length_append, !length_digits.
Qed.

Lemma formatSRTTime_time_witness :
  formatSRTTime eastern 15552000%float
  = Date.digits 2 23 +:+ ":" +:+ Date.digits 2 0 +:+ ":" +:+ Date.digits 2 0
    +:+ "," +:+ Date.digits 3 0.
Proof.
  apply (formatSRTTime_time eastern 15552000%float 15548400000). vm_compute. reflexivity.
Defined.

(** X2: the hour of the SRT format wraps at 24: in every time zone, two
    values whose dates are times are written alike exactly when the time
    values of the two dates are the same time of day. *)
Theorem formatSRTTime_same_iff (tz : Date.time_zone) (s1 s2 : float) (t1 t2 : Z) :
  time_of tz s1 = Int t1 -> time_of tz s2 = Int t2 ->
  formatSRTTime tz s1 = formatSRTTime tz s2 <-> t1 mod Date.msPerDay = t2 mod Date.msPerDay.
Proof.
  intros H1 H2. rewrite (formatSRTTime_digits tz s1 t1 H1), (formatSRTTime_digits tz s2 t2 H2).
  destruct (time_fields_bounded t1) as (? & ? & ? & ?).
  destruct (time_fields_bounded t2) as (? & ? & ? & ?).
  split.
  - intros Heq.
    split_field Heq Hhour. split_field Heq Hmin. split_field Heq Hsec.
    apply digits_inj in Hhour; [|change (10 ^ Z.of_nat 2) with 100; lia..].
    apply digits_inj in Hmin; [|change (10 ^ Z.of_nat 2) with 100; lia..].
    apply digits_inj in Hsec; [|change (10 ^ Z.of_nat 2) with 100; lia..].
    apply digits_inj in Heq; [|change (10 ^ Z.of_nat 3) with 1000; lia..].
    revert Hhour Hmin Hsec Heq.
    unfold Date.HourFromTime, Date.MinFromTime, Date.SecFromTime, Date.msFromTime,
      Date.msPerDay, Date.msPerHour, Date.msPerMinute, Date.msPerSecond.
    intros. Z.to_euclidean_division_equations; lia.
  - intros Hday.
    assert (Date.HourFromTime t1 = Date.HourFromTime t2
            /\ Date.MinFromTime t1 = Date.MinFromTime t2
            /\ Date.SecFromTime t1 = Date.SecFromTime t2
            /\ Date.msFromTime t1 = Date.msFromTime t2) as (-> & -> & -> & ->);
      [|reflexivity].
    revert Hday.
    unfold Date.HourFromTime, Date.MinFromTime, Date.SecFromTime, Date.msFromTime,
      Date.msPerDay, Date.msPerHour, Date.msPerMinute, Date.msPerSecond.
    intros. Z.to_euclidean_division_equations; lia.
Qed.

Lemma formatSRTTime_same_iff_witness :
  formatSRTTime eastern 15552000%float = formatSRTTime eastern 82800%float.
Proof.
  apply (formatSRTTime_same_iff eastern 15552000%float 82800%float 15548400000 82800000);
    vm_compute; reflexivity.
Defined.

(** ** The LRC time format *)

Lemma two_digits_inj (a b : Z) :
  0 <= a < 100 -> 0 <= b < 100 -> two_digits a = two_digits b -> a = b.
Proof.
  intros Ha Hb Heq. unfold two_digits in Heq. injection Heq as Hhigh Hlow.
  apply digit_inj in Hhigh, Hlow. Z.to_euclidean_division_equations; lia.
Qed.

Lemma formatLRCTime_of_time (tz : Date.time_zone) (seconds : float) (t : Z) :
  time_of tz seconds = Int t ->
  formatLRCTime tz seconds
  = "[" +:+ two_digits (Date.MinFromTime t) +:+ ":" +:+ two_digits (Date.SecFromTime t)
    +:+ "." +:+ two_digits (Date.msFromTime t / 10) +:+ "]".
Proof. exact (formatLRCTime_time tz (AlignedWord "" seconds seconds) t). Qed.

(** X3: the LRC format has no hour: in every time zone, two values whose
    dates are times get the same stamp exactly when the time values of the
    two dates fall in the same hundredth of a second of the hour. *)
Theorem formatLRCTime_same_iff (tz : Date.time_zone) (s1 s2 : float) (t1 t2 : Z) :
  time_of tz s1 = Int t1 -> time_of tz s2 = Int t2 ->
  formatLRCTime tz s1 = formatLRCTime tz s2
  <-> t1 mod Date.msPerHour / 10 = t2 mod Date.msPerHour / 10.
Proof.
  intros H1 H2.
  rewrite (formatLRCTime_of_time tz s1 t1 H1), (formatLRCTime_of_time tz s2 t2 H2).
  destruct (formatLRCTime_fields_bounded t1) as (? & ? & ?).
  destruct (formatLRCTime_fields_bounded t2) as (? & ? & ?).
  split.
  - intros Heq. apply (inj (String.app _)) in Heq.
    apply append_inj_length in Heq as [Hmin Heq]; [|reflexivity].
    apply (inj (String.app _)) in Heq.
    apply append_inj_length in Heq as [Hsec Heq]; [|reflexivity].
    apply (inj (String.app _)) in Heq.
    apply append_inj_length in Heq as [Hhun _]; [|reflexivity].
    apply two_digits_inj in Hmin, Hsec, Hhun; try lia.
    revert Hmin Hsec Hhun.
    unfold Date.MinFromTime, Date.SecFromTime, Date.msFromTime,
      Date.msPerHour, Date.msPerMinute, Date.msPerSecond.
    intros. Z.to_euclidean_division_equations; lia.
  - intros Hhour.
    assert (Date.MinFromTime t1 = Date.MinFromTime t2
            /\ Date.SecFromTime t1 = Date.SecFromTime t2
            /\ Date.msFromTime t1 / 10 = Date.msFromTime t2 / 10) as (-> & -> & ->);
      [|reflexivity].
    revert Hhour.
    unfold Date.MinFromTime, Date.SecFromTime, Date.msFromTime,
      Date.msPerHour, Date.msPerMinute, Date.msPerSecond.
    intros. Z.to_euclidean_division_equations; lia.
Qed.

Lemma formatLRCTime_same_iff_witness :
  formatLRCTime universal 61.25%float = formatLRCTime universal 3661.25%float.
Proof.
  apply (formatLRCTime_same_iff universal 61.25%float 3661.25%float 61250 3661250);
    vm_compute; reflexivity.
Defined.

(** ** Values that are no time *)

Lemma time_of_epoch (tz : Date.time_zone) (seconds : float) :
  time_of tz seconds
  = match truncate (seconds * 1000)%float with
    | Some milli => Date.TimeClip (Date.UTC tz (local_epoch tz + milli))
    | None => NaN
    end.
Proof. apply setMilliseconds_epoch. Qed.

Lemma digit_is_not_N (d : Z) : Date.digit d <> "N"%char.
Proof.
  unfold Date.digit. intros Heq. apply (f_equal nat_of_ascii) in Heq.
  pose proof (Z.mod_pos_bound d 10).
  rewrite nat_ascii_embedding in Heq by lia.
  change (nat_of_ascii "N") with 78%nat in Heq. lia.
Qed.

(** X4: the formatters never fail, in any time zone. They write [NaN] in
    every field exactly when the date is no time. The date holds what
    [seconds] times 1000, cut toward zero, gives when it is added to the
    local time of the epoch and the sum is read as a local time; it is no
    time when the product is not finite or that time is further than
    8.64e15 from zero. Where the zone keeps the offset of the epoch, the
    date holds the product cut toward zero itself. *)
Theorem formatters_NaN (tz : Date.time_zone) (seconds : float) :
  (time_of tz seconds = NaN <-> formatSRTTime tz seconds = "NaN:NaN:NaN,NaN")
  /\ (time_of tz seconds = NaN <-> formatLRCTime tz seconds = "[NaN:NaN.NaN]")
  /\ match truncate (seconds * 1000)%float with
     | Some milli =>
         let t := Date.UTC tz (local_epoch tz + milli) in
         if Z.abs t <=? 8640000000000000 then time_of tz seconds = Int t
         else time_of tz seconds = NaN
     | None => time_of tz seconds = NaN
     end
  /\ (forall lo hi milli : Z,
         steady tz lo hi -> truncate (seconds * 1000)%float = Some milli ->
         lo <= milli <= hi ->
         if Z.abs milli <=? 8640000000000000 then time_of tz seconds = Int milli
         else time_of tz seconds = NaN).
Proof.
  split; [|split; [|split]].
  - split.
    + intros Hnan. unfold formatSRTTime. cbv zeta. fold (time_of tz seconds).
      rewrite Hnan. vm_compute. reflexivity.
    + intros Heq. destruct (time_of tz seconds) as [|t] eqn:Htime; [reflexivity|].
      rewrite (formatSRTTime_digits tz seconds t Htime) in Heq.
      lazy [Date.digits String.append] in Heq. injection Heq as Hdigit _.
      by apply digit_is_not_N in Hdigit.
  - split.
    + intros Hnan. unfold formatLRCTime. cbv zeta. fold (time_of tz seconds).
      rewrite Hnan. vm_compute. reflexivity.
    + intros Heq. destruct (time_of tz seconds) as [|t] eqn:Htime; [reflexivity|].
      rewrite (formatLRCTime_of_time tz seconds t Htime) in Heq.
      lazy [two_digits String.append] in Heq. injection Heq as Hdigit _.
      by apply digit_is_not_N in Hdigit.
  - rewrite time_of_epoch. destruct (truncate (seconds * 1000)%float) as [milli|];
      [|reflexivity].
    cbv zeta. unfold Date.TimeClip.
    by destruct (Z.abs (Date.UTC tz (local_epoch tz + milli)) <=? 8640000000000000).
  - intros lo hi milli Hsteady Hms Hrange. unfold time_of.
    rewrite (setMilliseconds_steady tz lo hi _ milli Hsteady Hms Hrange).
    unfold Date.TimeClip. by destruct (Z.abs milli <=? 8640000000000000).
Qed.

(** The same value in two zones: 180 days are written as midnight in UTC,
    and as 23:00 where the clocks have moved forward by an hour since the
    epoch. *)
Example formatSRTTime_in_two_zones :
  formatSRTTime universal 15552000%float = "00:00:00,000"
  /\ formatSRTTime eastern 15552000%float = "23:00:00,000".
Proof. split; vm_compute; reflexivity. Qed.

(** ** The SRT document *)

(** X5: the SRT document of two sequences one after the other is the
    document of the first followed by the blocks of the second, numbered
    on from the length of the first. *)
Theorem convertToSRT_app (tz : Date.time_zone) (xs ys : list aligned_word) :
  convertToSRT tz (xs ++ ys)
  = convertToSRT tz xs
    +:+ concat_strings (imap (fun j w => srt_block tz (length xs + j) w) ys).
Proof. by rewrite !convertToSRT_blocks, imap_app, concat_strings_app. Qed.

Lemma lines_srt_blocks (tz : Date.time_zone) (ws : list aligned_word) (k : nat) :
  Forall (fun w => no_LF (word w) = true) ws ->
  lines (concat_strings (imap (fun j w => srt_block tz (k + j) w) ws))
  = concat (imap (fun j w => srt_lines tz (k + j) w) ws).
Proof.
  intros Hws. revert k. induction Hws as [|w ws Hw _ IH]; intros k; [reflexivity|].
  change (imap (fun j w => srt_block tz (k + j) w) (w :: ws))
    with (srt_block tz (k + 0) w :: imap (fun j w => srt_block tz (k + S j) w) ws).
  change (imap (fun j w => srt_lines tz (k + j) w) (w :: ws))
    with (srt_lines tz (k + 0) w :: imap (fun j w => srt_lines tz (k + S j) w) ws).
  rewrite concat_strings_cons, concat_cons.
  rewrite (imap_ext (fun j w => srt_block tz (k + S j) w) (fun j w => srt_block tz (S k + j) w))
    by (intros; f_equal; lia).
  rewrite (imap_ext (fun j w => srt_lines tz (k + S j) w) (fun j w => srt_lines tz (S k + j) w))
    by (intros; f_equal; lia).
  rewrite <- IH. unfold srt_block, srt_lines. rewrite !append_assoc.
  rewrite lines_cons_line by apply no_LF_pretty_nat.
  rewrite <- (append_assoc (formatSRTTime tz (start_s w))),
    <- (append_assoc (formatSRTTime tz (start_s w) +:+ " --> ")).
  rewrite lines_cons_line by (by rewrite !no_LF_app, !no_LF_formatSRTTime).
  rewrite lines_cons_line by exact Hw.
  rewrite (lines_cons_line "" _ eq_refl : lines (LF +:+ _) = _).
  by rewrite append_assoc.
Qed.

Lemma length_concat_imap_4 {A B : Type} (f : nat -> A -> list B) (l : list A) :
  (forall i x, length (f i x) = 4%nat) ->
  length (concat (imap f l)) = (4 * length l)%nat.
Proof.
  revert f. induction l as [|x l IH]; intros f Hf; [reflexivity|].
  change (imap f (x :: l)) with (f 0%nat x :: imap (f ∘ S) l).
  rewrite concat_cons, length_app, Hf, (IH (f ∘ S)) by (intros; apply Hf).
  simpl. lia.
Qed.

(** X6: when no word holds a line feed, the SRT document has exactly four
    lines for each word, in the order of the words: the index, the two
    times, the text, and an empty line. *)
Theorem lines_convertToSRT (tz : Date.time_zone) (ws : list aligned_word) :
  Forall (fun w => no_LF (word w) = true) ws ->
  lines (convertToSRT tz ws) = concat (imap (srt_lines tz) ws)
  /\ length (lines (convertToSRT tz ws)) = (4 * length ws)%nat.
Proof.
  intros Hws.
  assert (lines (convertToSRT tz ws) = concat (imap (srt_lines tz) ws)) as Hlines.
  { rewrite convertToSRT_blocks. apply (lines_srt_blocks tz ws 0 Hws). }
  split; [exact Hlines|]. rewrite Hlines. by apply length_concat_imap_4.
Qed.

Lemma lines_convertToSRT_witness :
  lines (convertToSRT universal [hello; AlignedWord "world" 2.0%float 2.5%float])
  = ["1"; "00:00:01,500 --> 00:00:02,000"; "hello"; "";
     "2"; "00:00:02,000 --> 00:00:02,500"; "world"; ""].
Proof.
  rewrite (proj1 (lines_convertToSRT universal [hello; AlignedWord "world" 2.0%float 2.5%float]
                    ltac:(repeat constructor))).
  vm_compute. reflexivity.
Defined.

(** ** The LRC document, read back *)

Lemma string_drop_stamp (m s h : Z) (rest : string) :
  string_drop 10 (("[" +:+ two_digits m +:+ ":" +:+ two_digits s +:+ "."
                   +:+ two_digits h +:+ "]") +:+ rest) = rest.
Proof. reflexivity. Qed.

(** X7: when no word holds a line feed and every start is a time, the
    texts of the words are read back from the LRC document, in order, by
    dropping the ten characters of the stamp from each line. *)
Theorem convertToLRC_words_back (tz : Date.time_zone) (ws : list aligned_word) :
  Forall (fun w => no_LF (word w) = true /\ is_time (start_time tz w) = true) ws ->
  map (string_drop 10) (lines (convertToLRC tz ws)) = map word ws.
Proof.
  intros Hws. rewrite lines_convertToLRC
    by (eapply Forall_impl; [exact Hws|]; by intros w [? _]).
  induction Hws as [|w ws [_ Htime] _ IH]; [reflexivity|].
  rewrite !map_cons, IH. f_equal.
  destruct (start_time tz w) as [|t] eqn:Hstart; [discriminate|].
  rewrite (formatLRCTime_time tz w t Hstart). apply string_drop_stamp.
Qed.

Lemma convertToLRC_words_back_witness :
  map (string_drop 10) (lines (convertToLRC universal [hello; AlignedWord "world" 2.0%float 2.5%float]))
  = ["hello"; "world"].
Proof.
  apply (convertToLRC_words_back universal [hello; AlignedWord "world" 2.0%float 2.5%float]).
  repeat constructor.
Defined.

(** ** White space at the ends *)

Lemma list_of_append (s t : string) :
  list_ascii_of_string (s +:+ t) = list_ascii_of_string s ++ list_ascii_of_string t.
Proof.
  induction s as [|c s IH]; [reflexivity|].
  rewrite append_cons. simpl. by rewrite IH.
Qed.

Lemma list_of_rev_app (s1 s2 : string) :
  list_ascii_of_string (String.rev_app s1 s2)
  = rev (list_ascii_of_string s1) ++ list_ascii_of_string s2.
Proof.
  revert s2. induction s1 as [|c s1 IH]; intros s2; [reflexivity|].
  simpl. rewrite IH. simpl. by rewrite <- List.app_assoc.
Qed.

Lemma list_of_rev (s : string) :
  list_ascii_of_string (String.rev s) = rev (list_ascii_of_string s).
Proof. unfold String.rev. rewrite list_of_rev_app. simpl. apply List.app_nil_r. Qed.

Lemma list_of_string_inj (s t : string) :
  list_ascii_of_string s = list_ascii_of_string t -> s = t.
Proof.
  intros Heq. apply (f_equal string_of_list_ascii) in Heq.
  by rewrite !string_of_list_ascii_of_string in Heq.
Qed.

Lemma rev_rev (s : string) : String.rev (String.rev s) = s.
Proof. apply list_of_string_inj. rewrite !list_of_rev. apply rev_involutive. Qed.

Lemma rev_append (s t : string) :
  String.rev (s +:+ t) = String.rev t +:+ String.rev s.
Proof.
  apply list_of_string_inj.
  rewrite list_of_rev, !list_of_append, !list_of_rev. apply rev_app_distr.
Qed.

(** ** Prefixes *)

Lemma strip_prefix_app (p r : string) : strip_prefix p (p +:+ r) = Some r.
Proof.
  induction p as [|a p IH]; [reflexivity|].
  rewrite append_cons. simpl. by rewrite Ascii.eqb_refl.
Qed.

Lemma strip_prefix_Some (p s r : string) : strip_prefix p s = Some r -> s = p +:+ r.
Proof.
  revert s. induction p as [|a p IH]; intros s Hs; [by injection Hs as ->|].
  destruct s as [|b s]; [discriminate|]. simpl in Hs.
  destruct (Ascii.eqb_spec a b) as [->|]; [|discriminate].
  rewrite append_cons. f_equal. by apply IH.
Qed.

Lemma strip_prefix_more (p s r t : string) :
  strip_prefix p s = Some r -> strip_prefix p (s +:+ t) = Some (r +:+ t).
Proof.
  intros Hs. apply strip_prefix_Some in Hs as ->.
  by rewrite append_assoc, strip_prefix_app.
Qed.

Lemma strip_S (n : nat) (prefixes : list string) (s : string) :
  strip (S n) prefixes s
  = match strip_first prefixes s with
    | Some r => strip n prefixes r
    | None => s
    end.
Proof. reflexivity. Qed.

Section Strip.

Variable prefixes : list string.
Hypothesis prefixes_not_empty : Forall (fun p => p <> "") prefixes.

Lemma strip_first_Some (s r : string) :
  strip_first prefixes s = Some r -> exists p, In p prefixes /\ s = p +:+ r.
Proof using Type.
  clear prefixes_not_empty.
  induction prefixes as [|p ps IH]; [discriminate|]. simpl.
  destruct (strip_prefix p s) as [r'|] eqn:Hp.
  - intros [= ->]. exists p. split; [by left|by apply strip_prefix_Some].
  - intros Hs. destruct (IH Hs) as (q & Hq & ->). exists q. split; [by right|reflexivity].
Qed.

Lemma strip_first_shorter (s r : string) :
  strip_first prefixes s = Some r -> (String.length r < String.length s)%nat.
Proof using prefixes_not_empty.
  intros Hs. destruct (strip_first_Some s r Hs) as (p & Hp & ->).
  rewrite List.Forall_forall in prefixes_not_empty.
  destruct p as [|a p]; [by destruct (prefixes_not_empty "" Hp)|].
  rewrite length_append. simpl. lia.
Qed.

Lemma strip_first_more (s t : string) :
  strip_first prefixes (s +:+ t) = None -> strip_first prefixes s = None.
Proof using Type.
  clear prefixes_not_empty.
  induction prefixes as [|p ps IH]; [reflexivity|]. simpl.
  destruct (strip_prefix p s) as [r|] eqn:Hp.
  - by rewrite (strip_prefix_more p s r t Hp).
  - destruct (strip_prefix p (s +:+ t)); [discriminate|apply IH].
Qed.

Lemma strip_pieces (n : nat) (s : string) :
  exists pieces : list string,
    Forall (fun p => In p prefixes) pieces
    /\ s = concat_strings pieces +:+ strip n prefixes s.
Proof using Type.
  clear prefixes_not_empty.
  revert s. induction n as [|n IH]; intros s; [by exists []|].
  simpl. destruct (strip_first prefixes s) as [r|] eqn:Hs; [|by exists []].
  destruct (strip_first_Some s r Hs) as (p & Hp & ->).
  destruct (IH r) as (pieces & Hpieces & Hr).
  exists (p :: pieces). split; [by constructor|].
  rewrite concat_strings_cons, append_assoc. by rewrite <- Hr.
Qed.

Lemma strip_done (n : nat) (s : string) :
  (String.length s <= n)%nat -> strip_first prefixes (strip n prefixes s) = None.
Proof using prefixes_not_empty.
  revert s. induction n as [|n IH]; intros s Hn.
  - destruct s; [|simpl in Hn; lia]. simpl.
    destruct (strip_first prefixes "") as [r|] eqn:Hs; [|reflexivity].
    apply strip_first_shorter in Hs. simpl in Hs. lia.
  - simpl. destruct (strip_first prefixes s) as [r|] eqn:Hs; [|exact Hs].
    apply IH. apply strip_first_shorter in Hs. lia.
Qed.

Lemma strip_nothing (n : nat) (s : string) :
  strip_first prefixes s = None -> strip n prefixes s = s.
Proof using Type. destruct n as [|n]; [reflexivity|]. simpl. by intros ->. Qed.

Lemma strip_enough (n m : nat) (s : string) :
  (String.length s <= n)%nat -> (String.length s <= m)%nat ->
  strip n prefixes s = strip m prefixes s.
Proof using prefixes_not_empty.
  revert m s. induction n as [|n IH]; intros m s Hn Hm.
  - destruct s; [|simpl in Hn; lia]. destruct m as [|m]; [reflexivity|]. simpl.
    destruct (strip_first prefixes "") as [r|] eqn:Hs; [|reflexivity].
    apply strip_first_shorter in Hs. simpl in Hs. lia.
  - simpl. destruct (strip_first prefixes s) as [r|] eqn:Hs.
    + pose proof (strip_first_shorter s r Hs).
      destruct m as [|m]; [lia|]. simpl. rewrite Hs. apply IH; lia.
    + by rewrite strip_nothing.
Qed.

End Strip.

Lemma white_space_not_empty : Forall (fun p => p <> "") white_space.
Proof. repeat constructor; discriminate. Qed.

Lemma white_space_rev_not_empty : Forall (fun p => p <> "") (map String.rev white_space).
Proof. repeat constructor; discriminate. Qed.

Lemma length_list_of (s : string) : length (list_ascii_of_string s) = String.length s.
Proof. induction s as [|c s IH]; simpl; congruence. Qed.

Lemma length_string_rev (s : string) : String.length (String.rev s) = String.length s.
Proof. by rewrite <- !length_list_of, list_of_rev, List.length_rev. Qed.

Lemma trimStart_clean (s : string) : clean_start (trimStart s).
Proof. apply (strip_done _ white_space_not_empty). lia. Qed.

Lemma trimStart_id (s : string) : clean_start s -> trimStart s = s.
Proof. apply strip_nothing. Qed.

Lemma trimEnd_clean (s : string) : clean_end (trimEnd s).
Proof.
  unfold clean_end, trimEnd. rewrite rev_rev.
  apply (strip_done _ white_space_rev_not_empty). by rewrite length_string_rev.
Qed.

Lemma trimEnd_id (s : string) : clean_end s -> trimEnd s = s.
Proof. intros Hs. unfold trimEnd. by rewrite strip_nothing, rev_rev. Qed.

Lemma trimStart_suffix (s : string) :
  exists pre : string, blank pre /\ s = pre +:+ trimStart s.
Proof.
  destruct (strip_pieces white_space (String.length s) s) as (pieces & Hpieces & Hs).
  exists (concat_strings pieces). split; [by exists pieces|exact Hs].
Qed.

Lemma rev_concat_strings (pieces : list string) :
  String.rev (concat_strings pieces) = concat_strings (rev (map String.rev pieces)).
Proof.
  induction pieces as [|p pieces IH]; [reflexivity|].
  rewrite concat_strings_cons, rev_append, IH. simpl.
  rewrite concat_strings_app. simpl. by rewrite append_nil_r.
Qed.

Lemma trimEnd_prefix (s : string) :
  exists post : string, blank post /\ s = trimEnd s +:+ post.
Proof.
  destruct (strip_pieces (map String.rev white_space) (String.length s) (String.rev s))
    as (pieces & Hpieces & Hs).
  exists (String.rev (concat_strings pieces)). split.
  - exists (rev (map String.rev pieces)). split; [|apply rev_concat_strings].
    apply List.Forall_forall. intros p Hp. apply in_rev, in_map_iff in Hp as (q & <- & Hq).
    rewrite List.Forall_forall in Hpieces. apply Hpieces, in_map_iff in Hq as (w & <- & Hw).
    by rewrite rev_rev.
  - unfold trimEnd. rewrite <- rev_append, <- Hs. by rewrite rev_rev.
Qed.

Lemma trim_inside (s : string) :
  exists pre post : string, blank pre /\ blank post /\ s = pre +:+ trim s +:+ post.
Proof.
  unfold trim. destruct (trimStart_suffix s) as (pre & Hpre & Hs).
  destruct (trimEnd_prefix (trimStart s)) as (post & Hpost & Ht).
  exists pre, post. split; [exact Hpre|]. split; [exact Hpost|]. by rewrite <- Ht.
Qed.

Lemma trim_clean_start (s : string) : clean_start (trim s).
Proof.
  unfold trim. destruct (trimEnd_prefix (trimStart s)) as (post & _ & Ht).
  pose proof (trimStart_clean s) as Hclean. unfold clean_start in *.
  rewrite Ht in Hclean. by apply strip_first_more in Hclean.
Qed.

Lemma trim_idempotent (s : string) : trim (trim s) = trim s.
Proof.
  unfold trim at 1. rewrite (trimStart_id (trim s)) by apply trim_clean_start.
  unfold trim. apply trimEnd_id, trimEnd_clean.
Qed.

(** A white-space character in front is the one that is stripped. *)
Lemma strip_first_white (w rest : string) :
  In w white_space -> strip_first white_space (w +:+ rest) = Some rest.
Proof.
  intros Hw. repeat (destruct Hw as [<-|Hw]; [reflexivity|]). destruct Hw.
Qed.

Lemma white_space_longer (w rest : string) (n : nat) :
  In w white_space -> (String.length (w +:+ rest) <= S n)%nat ->
  (String.length rest <= n)%nat.
Proof.
  intros Hw. rewrite length_append.
  pose proof white_space_not_empty as Hne. rewrite List.Forall_forall in Hne.
  destruct w; [by destruct (Hne "" Hw)|simpl; lia].
Qed.

Lemma trimStart_blank (s : string) : blank s -> trimStart s = "".
Proof.
  intros (pieces & Hpieces & ->). unfold trimStart.
  assert (forall n, (String.length (concat_strings pieces) <= n)%nat ->
                    strip n white_space (concat_strings pieces) = "") as Hall;
    [|by apply Hall].
  induction Hpieces as [|w pieces Hw _ IH]; intros n Hn; [by destruct n|].
  rewrite concat_strings_cons in *. destruct n as [|n].
  - rewrite length_append in Hn.
    pose proof white_space_not_empty as Hne. rewrite List.Forall_forall in Hne.
    destruct w; [by destruct (Hne "" Hw)|simpl in Hn; lia].
  - rewrite strip_S, (strip_first_white w _ Hw). apply IH.
    by apply (white_space_longer w).
Qed.

Lemma blank_app (s t : string) : blank s -> blank t -> blank (s +:+ t).
Proof.
  intros (ps & Hps & ->) (pt & Hpt & ->). exists (ps ++ pt).
  split; [by apply Forall_app|by rewrite concat_strings_app].
Qed.

(** [trim] leaves nothing exactly of what is made of white space only. *)
Lemma trim_blank (s : string) : trim s = "" <-> blank s.
Proof.
  split.
  - intros Hs. destruct (trim_inside s) as (pre & post & Hpre & Hpost & Heq).
    rewrite Hs in Heq. rewrite Heq. by apply blank_app.
  - intros Hs. unfold trim. by rewrite (trimStart_blank s Hs).
Qed.

(** ** The identifiers typed at the first prompt *)

Lemma no_comma_app (s t : string) : no_comma (s +:+ t) = no_comma s && no_comma t.
Proof.
  induction s as [|c s IH]; [reflexivity|].
  rewrite append_cons. simpl. by rewrite IH, andb_assoc.
Qed.

Lemma no_comma_trim (s : string) : no_comma s = true -> no_comma (trim s) = true.
Proof.
  destruct (trim_inside s) as (pre & post & _ & _ & Hs). intros Hno.
  rewrite Hs, !no_comma_app in Hno.
  by apply andb_true_iff in Hno as [_ [? _]%andb_true_iff].
Qed.

Lemma split_comma_no_comma (s : string) :
  Forall (fun p => no_comma p = true) (split_comma s).
Proof.
  induction s as [|c s IH]; [by repeat constructor|].
  simpl. destruct (Ascii.eqb c ",") eqn:Hc; [by constructor|].
  destruct (split_comma s) as [|p ps]; [constructor; [|constructor]|].
  - simpl. by rewrite Hc.
  - inversion IH as [|? ? Hp Hps]; subst. constructor; [|exact Hps].
    simpl. by rewrite Hc, Hp.
Qed.

Lemma split_comma_one (a : string) : no_comma a = true -> split_comma a = [a].
Proof.
  induction a as [|c a IH]; [reflexivity|].
  simpl. intros [Hc Ha]%andb_true_iff. apply negb_true_iff in Hc.
  by rewrite Hc, (IH Ha).
Qed.

Lemma split_comma_cons (a rest : string) :
  no_comma a = true -> split_comma (a +:+ "," +:+ rest) = a :: split_comma rest.
Proof.
  induction a as [|c a IH]; [reflexivity|].
  intros Hno. simpl in Hno. apply andb_true_iff in Hno as [Hc Ha].
  apply negb_true_iff in Hc. rewrite append_cons.
  change (split_comma (String c (a +:+ "," +:+ rest)))
    with (if Ascii.eqb c ","%char then "" :: split_comma (a +:+ "," +:+ rest)
          else match split_comma (a +:+ "," +:+ rest) with
               | p :: ps => String c p :: ps
               | [] => [String c ""]
               end).
  by rewrite Hc, (IH Ha).
Qed.

Lemma filter_nil_iff {A : Type} (P : A -> Prop) `{!forall x, Decision (P x)} (l : list A) :
  filter P l = [] <-> Forall (fun x => ~ P x) l.
Proof.
  induction l as [|x l IH]; [by split; [constructor|]|].
  destruct (decide (P x)) as [Hx|Hx].
  - rewrite filter_cons_True by exact Hx. split; [discriminate|].
    intros Hall. apply Forall_inv in Hall. by destruct Hall.
  - rewrite filter_cons_False by exact Hx. rewrite IH. split.
    + by constructor.
    + intros Hall. by apply Forall_inv_tail in Hall.
Qed.

(** X8: the identifiers [main] keeps are the pieces between the commas of
    the answer, trimmed, without the empty ones: each is not empty, holds
    no comma and has no white space at either end. An answer gives no
    identifier exactly when every piece between its commas is made of white
    space only (the empty piece is). *)
Theorem songIds_of_clean (songIdsInput : string) :
  Forall clean_id (songIds_of songIdsInput)
  /\ (songIds_of songIdsInput = [] <-> Forall blank (split_comma songIdsInput)).
Proof.
  split.
  - unfold songIds_of. apply List.Forall_forall. intros id Hid.
    apply (proj2 (list_elem_of_In _ _)) in Hid.
    apply list_elem_of_filter in Hid as [Hfull Hid].
    apply (proj1 (list_elem_of_In _ _)) in Hid.
    apply in_map_iff in Hid as (p & <- & Hp).
    pose proof (split_comma_no_comma songIdsInput) as Hall.
    rewrite List.Forall_forall in Hall. specialize (Hall p Hp).
    split; [exact Hfull|]. split; [by apply no_comma_trim|apply trim_idempotent].
  - unfold songIds_of. rewrite filter_nil_iff, Forall_map.
    apply Forall_iff. intros p. rewrite <- trim_blank.
    destruct (trim p); simpl; split; try done.
Qed.

(** An answer of commas and of white space of several kinds, the no-break
    space among them, gives no identifier; a no-break space at the end of a
    piece is trimmed. *)
Example songIds_of_white_space :
  songIds_of (" ," +:+ utf8 [194; 160]%nat +:+ ",, " +:+ utf8 [227; 128; 128; 9]%nat) = []
  /\ songIds_of ("a" +:+ utf8 [194; 160]%nat +:+ "," +:+ utf8 [194; 160; 194; 160]%nat +:+ ",b")
     = ["a"; "b"].
Proof. split; vm_compute; reflexivity. Qed.

(** X9: identifiers that are not empty, hold no comma and have no white
    space at either end, written with commas between them, are read back
    as they were and in the same order. *)
Theorem songIds_of_join_comma (ids : list string) :
  Forall clean_id ids -> songIds_of (join_comma ids) = ids.
Proof.
  unfold songIds_of. induction 1 as [|x rest (Hfull & Hno & Htrim) Hrest IH];
    [by vm_compute|].
  destruct rest as [|y rest].
  - simpl. rewrite (split_comma_one x Hno). simpl. rewrite Htrim.
    by rewrite filter_cons_True.
  - change (join_comma (x :: y :: rest)) with (x +:+ "," +:+ join_comma (y :: rest)).
    rewrite (split_comma_cons x _ Hno), map_cons, Htrim, filter_cons_True by exact Hfull.
    by rewrite IH.
Qed.

Lemma songIds_of_join_comma_witness :
  songIds_of (join_comma ["abc-1"; "def 2"; "g"]) = ["abc-1"; "def 2"; "g"].
Proof.
  apply (songIds_of_join_comma ["abc-1"; "def 2"; "g"]).
  repeat constructor.
Defined.

(** ** Paths *)






















(** ** The paths of the script *)










(** ** Paths that are normalized already *)














(** ** What the effects leave behind *)

Lemma written_app (a b : list event) : written (a ++ b) = written a ++ written b.
Proof. apply flat_map_app. Qed.
Lemma asked_app (a b : list event) : asked (a ++ b) = asked a ++ asked b.
Proof. apply flat_map_app. Qed.

Lemma open_error_is_not_auth (p : string) :
  String.eqb ("EACCES: permission denied, open '" +:+ p +:+ "'") "TOKEN_INVALID" = false.
Proof. reflexivity. Qed.
Lemma mkdir_error_is_not_auth (p : string) :
  String.eqb ("EACCES: permission denied, mkdir '" +:+ p +:+ "'") "TOKEN_INVALID" = false.
Proof. reflexivity. Qed.

Ltac run_goal :=
  cbv [loop_body saveFile fetchAlignedWords new_Date existsSync mkdirSync writeFileSync
       console_log console_error try_catch axios_get settle record throw
       mbind M_bind mret M_ret negb
       files dirs prompts requests readings trace message response status data fst snd];
  rewrite ?open_error_is_not_auth, ?mkdir_error_is_not_auth, ?String.eqb_refl.

Ltac traces :=
  rewrite ?requested_app, ?written_app, ?asked_app; simpl; rewrite ?List.app_nil_r.

Lemma loop_body_effect (env : environment) (fileType token songId : string) (s : state) :
  let run := loop_body fileType token songId env s in
  (exists c, fst run = Return c
             /\ (c = Break <-> refused env (requests s) songId token))
  /\ prompts (snd run) = prompts s
  /\ requests (snd run) = S (requests s)
  /\ asked (trace (snd run)) = asked (trace s)
  /\ requested (trace (snd run)) = requested (trace s) ++ [(apiUrl_of songId, token)]
  /\ (written (trace (snd run)) = written (trace s) /\ files (snd run) = files s
      \/ exists (now : Z) (content : string),
           written (trace (snd run))
           = written (trace s) ++ [filePath_of env songId fileType now]
           /\ files (snd run)
              = <[filePath_of env songId fileType now := content]> (files s)).
Proof.
  destruct s as [fs ds np nr nc tr]. cbv zeta. unfold refused. cbn [requests].
  run_goal.
  change ("https://studio-api.prod.suno.com/api/gen/" +:+ songId +:+ "/aligned_lyrics/v2/")
    with (apiUrl_of songId).
  destruct (remote env nr (apiUrl_of songId) token) as [[st d]|reason] eqn:Hremote;
    run_goal.
  - destruct (validateStatus st) eqn:Hvalid; run_goal.
    + assert (st <> 401) as Hst
        by (unfold validateStatus in Hvalid; apply andb_true_iff in Hvalid as [_ H%Z.ltb_lt]; lia).
      destruct d as [text|[ws|]]; run_goal.
      2: { destruct (bool_decide (is_Some (fs !! path_join (cwd env) "output"))
                 || bool_decide (path_join (cwd env) "output" ∈ ds)); run_goal;
           [|destruct (writable env (path_join (cwd env) "output")); run_goal];
           try destruct (writable env (path_join (path_join (cwd env) "output") _)); run_goal.
           all: (split; [eexists; split; [reflexivity|]|]; traces).
           all: try (split; [discriminate|intros (res & [= <- ] & Hres); by destruct Hst]).
           all: repeat (split; [reflexivity|]).
           all: first [left; split; reflexivity | right; eexists _, _; split; reflexivity]. }
      all: (split; [eexists; split; [reflexivity|]|]; traces).
      all: try (split; [discriminate|intros (res & [= <- ] & Hres); by destruct Hst]).
      all: repeat (split; [reflexivity|]); by left.
    + destruct (st =? 401) eqn:Hst; run_goal.
      * apply Z.eqb_eq in Hst.
        split; [eexists; split; [reflexivity|]|traces; repeat (split; [reflexivity|]); by left].
        split; [intros _; by eexists|reflexivity].
      * apply Z.eqb_neq in Hst.
        split; [eexists; split; [reflexivity|]|traces; repeat (split; [reflexivity|]); by left].
        split; [discriminate|intros (res & [= <- ] & Hres); by destruct Hst].
  - split; [eexists; split; [reflexivity|]|traces; repeat (split; [reflexivity|]); by left].
    split; [discriminate|intros (res & ? & _); discriminate].
Qed.

Lemma for_of_cons (env : environment) (fileType token songId : string)
    (rest : list string) (s : state) :
  for_of (songId :: rest) (loop_body fileType token) env s
  = match loop_body fileType token songId env s with
    | (Return Normal, s1) => for_of rest (loop_body fileType token) env s1
    | (Return Break, s1) => (Return tt, s1)
    | (Throw e, s1) => (Throw e, s1)
    end.
Proof.
  change (for_of (songId :: rest) (loop_body fileType token))
    with (loop_body fileType token songId ≫= fun c =>
            match c with
            | Normal => for_of rest (loop_body fileType token)
            | Break => mret tt
            end).
  rewrite bind_run.
  by destruct (loop_body fileType token songId env s) as [[[]|] s1].
Qed.

Lemma for_of_effect (env : environment) (fileType token : string)
    (songIds : list string) (s : state) :
  let run := for_of songIds (loop_body fileType token) env s in
  fst run = Return tt
  /\ prompts (snd run) = prompts s
  /\ asked (trace (snd run)) = asked (trace s)
  /\ (exists n : nat,
        (n <= length songIds)%nat
        /\ requests (snd run) = (requests s + n)%nat
        /\ requested (trace (snd run))
           = requested (trace s) ++ map (fun id => (apiUrl_of id, token)) (take n songIds)
        /\ (forall (i : nat) (id : string),
              (S i < n)%nat -> songIds !! i = Some id ->
              ~ refused env (requests s + i) id token)
        /\ ((n < length songIds)%nat ->
            exists (m : nat) (id : string),
              n = S m /\ songIds !! m = Some id /\ refused env (requests s + m) id token))
  /\ (exists new : list string,
        written (trace (snd run)) = written (trace s) ++ new
        /\ Forall (fun p => exists id now, In id songIds
                                           /\ p = filePath_of env id fileType now) new)
  /\ (forall p : string,
        (forall id now, In id songIds -> p <> filePath_of env id fileType now) ->
        files (snd run) !! p = files s !! p).
Proof.
  cbv zeta. revert s. induction songIds as [|songId rest IH]; intros s.
  - change (for_of [] (loop_body fileType token) env s) with (Return tt, s). cbn [fst snd].
    repeat (split; [reflexivity|]). split; [|split].
    + exists 0%nat. cbn [take map length]. rewrite List.app_nil_r.
      repeat split; try reflexivity; lia.
    + exists []. rewrite List.app_nil_r. by split.
    + reflexivity.
  - rewrite for_of_cons.
    pose proof (loop_body_effect env fileType token songId s) as Hbody. cbv zeta in Hbody.
    destruct (loop_body fileType token songId env s) as [o s1]. cbn [fst snd] in Hbody.
    destruct Hbody as ((c & -> & Hbreak) & Hp & Hr & Ha & Hreq & Hw).
    assert (exists new1, written (trace s1) = written (trace s) ++ new1
                         /\ Forall (fun p => exists id now, In id (songId :: rest)
                                     /\ p = filePath_of env id fileType now) new1
                         /\ forall p, (forall id now, In id (songId :: rest) ->
                                                      p <> filePath_of env id fileType now) ->
                                      files s1 !! p = files s !! p)
      as (new1 & Hw1 & Hnew1 & Hf1).
    { destruct Hw as [[Hw Hf]|(now & content & Hw & Hf)].
      - exists []. rewrite List.app_nil_r, Hf. by repeat split.
      - exists [filePath_of env songId fileType now]. split; [exact Hw|]. split.
        + constructor; [|constructor]. exists songId, now. split; [by left|reflexivity].
        + intros p Hp'. rewrite Hf. apply lookup_insert_ne. intros Heq.
          exact (Hp' songId now (or_introl eq_refl) (eq_sym Heq)). }
    destruct c.
    + specialize (IH s1).
      destruct IH as (Hfst & Hp' & Ha' & (n & Hn & Hr' & Hreq' & Hbefore & Hstop)
                      & (new & Hw' & Hnew) & Hf').
      split; [exact Hfst|]. split; [congruence|]. split; [congruence|].
      split; [|split].
      * exists (S n). cbn [length take map]. split; [lia|]. split; [lia|].
        split; [by rewrite Hreq', Hreq, <- List.app_assoc|]. split.
        -- intros [|i] id Hi Hid.
           ++ injection Hid as <-. rewrite Nat.add_0_r. intros Href.
              by apply Hbreak in Href.
           ++ replace (requests s + S i)%nat with (requests s1 + i)%nat by lia.
              apply Hbefore; [lia|exact Hid].
        -- intros Hlt. destruct Hstop as (m & id & -> & Hid & Href); [lia|].
           exists (S m), id. split; [reflexivity|]. split; [exact Hid|].
           by replace (requests s + S m)%nat with (requests s1 + m)%nat by lia.
      * exists (new1 ++ new). split; [by rewrite Hw', Hw1, List.app_assoc|].
        apply Forall_app. split; [exact Hnew1|].
        eapply Forall_impl; [exact Hnew|]. intros p (id & now & Hid & ->).
        exists id, now. split; [by right|reflexivity].
      * intros p Hp''. rewrite Hf'; [by apply Hf1|].
        intros id now Hid. apply Hp''. by right.
    + cbn [fst snd]. split; [reflexivity|]. split; [exact Hp|]. split; [exact Ha|].
      split; [|split].
      * exists 1%nat. cbn [length take map]. split; [lia|]. split; [lia|].
        split; [by rewrite take_0|]. split; [intros i id Hi; lia|].
        intros _. exists 0%nat, songId. split; [reflexivity|]. split; [reflexivity|].
        rewrite Nat.add_0_r. by apply Hbreak.
      * exists new1. by split.
      * exact Hf1.
Qed.

Lemma processSongs_unfold (env : environment) (fileType token : string)
    (songIds : list string) (s : state) :
  processSongs songIds fileType token env s
  = (Return tt, record all_done (snd (for_of songIds (loop_body fileType token) env s))).
Proof.
  unfold processSongs. rewrite bind_run.
  pose proof (for_of_effect env fileType token songIds s) as [Hfst _]. cbv zeta in Hfst.
  destruct (for_of songIds (loop_body fileType token) env s) as [o s1].
  cbn [fst snd] in *. by rewrite Hfst.
Qed.

Lemma never_refused_all (env : environment) (n : nat) (songIds : list string)
    (k : nat) (token : string) :
  ((n < length songIds)%nat ->
   exists (m : nat) (id : string),
     n = S m /\ songIds !! m = Some id /\ refused env (k + m) id token) ->
  (n <= length songIds)%nat -> never_refused env -> n = length songIds.
Proof.
  intros Hstop Hn Hnever. destruct (decide (n < length songIds)%nat) as [Hlt|]; [|lia].
  destruct (Hstop Hlt) as (m & id & _ & _ & res & Hres & Hst).
  by destruct (Hnever _ _ _ _ Hres).
Qed.

(** X14: the loop asks for the identifiers in the order of the list, each
    at most once and always with the token it was given. It stops at the
    first request answered with a 401 and nowhere else: no request before
    the last one sent was answered with a 401, and when an identifier of
    the list was not asked for, the last request sent was. When no request
    is answered with a 401 it asks for all of them. *)
Theorem processSongs_requests_in_order (env : environment) (fileType token : string)
    (songIds : list string) (s : state) :
  let after := snd (processSongs songIds fileType token env s) in
  exists n : nat,
    (n <= length songIds)%nat
    /\ requested (trace after)
       = requested (trace s) ++ map (fun id => (apiUrl_of id, token)) (take n songIds)
    /\ (forall (i : nat) (id : string),
          (S i < n)%nat -> songIds !! i = Some id ->
          ~ refused env (requests s + i) id token)
    /\ ((n < length songIds)%nat ->
        exists (m : nat) (id : string),
          n = S m /\ songIds !! m = Some id /\ refused env (requests s + m) id token)
    /\ (never_refused env -> n = length songIds).
Proof.
  cbv zeta. rewrite processSongs_unfold. cbn [snd].
  destruct (for_of_effect env fileType token songIds s)
    as (_ & _ & _ & (n & Hn & _ & Hreq & Hbefore & Hstop) & _).
  exists n. split; [exact Hn|]. split; [|split; [exact Hbefore|split; [exact Hstop|]]].
  - unfold record. cbn [trace]. rewrite requested_app, Hreq.
    cbn [requested flat_map all_done]. by rewrite List.app_nil_r.
  - by apply (never_refused_all env n songIds (requests s) token).
Qed.




Ltac run_fetch :=
  cbv [fetchAlignedWords try_catch axios_get settle console_log console_error record throw
       mbind M_bind mret M_ret
       files dirs prompts requests readings trace message response status data fst snd].

(** X10: whatever the answer, [fetchAlignedWords] sends exactly one request,
    to the address of the song and with the token, leaves the files, the
    prompts and the clock alone, and throws nothing but the AuthError. *)
Theorem fetchAlignedWords_frame (env : environment) (s : state) (songId token : string) :
  let run := fetchAlignedWords songId token env s in
  files (snd run) = files s /\ dirs (snd run) = dirs s
  /\ prompts (snd run) = prompts s /\ readings (snd run) = readings s
  /\ requests (snd run) = S (requests s)
  /\ requested (trace (snd run)) = requested (trace s) ++ [(apiUrl_of songId, token)]
  /\ written (trace (snd run)) = written (trace s)
  /\ asked (trace (snd run)) = asked (trace s)
  /\ match fst run with
     | Throw e => e = AuthError
     | Return _ => True
     end.
Proof.
  destruct s as [fs ds np nr nc tr]. cbv zeta. run_fetch.
  change ("https://studio-api.prod.suno.com/api/gen/" +:+ songId +:+ "/aligned_lyrics/v2/")
    with (apiUrl_of songId).
  destruct (remote env nr (apiUrl_of songId) token) as [[st d]|reason]; run_fetch.
  - destruct (validateStatus st); run_fetch;
      [destruct d as [text|[ws|]]|destruct (st =? 401)]; run_fetch;
      traces; by repeat split.
  - traces. by repeat split.
Qed.





(** An identifier that leads above the output directory: the file is written
    beside the directory, not in it. *)
Example saveFile_above_output :
  written (trace (snd (saveFile "words" "lrc" "/../../escaped" same_millisecond (fresh ∅))))
  = ["/home/user/escaped_2023-11-14T22-13-20-123Z.lrc"]
  /\ outputDir_of same_millisecond = "/home/user/output".
Proof. split; vm_compute; reflexivity. Qed.

Ltac run_startup :=
  cbv [startup existsSync writeFileSync console_log record mbind M_bind mret M_ret negb
       files dirs prompts requests readings trace fst snd].

Lemma startup_present (env : environment) (s : state) :
  is_Some (files s !! TOKEN_FILE env) \/ TOKEN_FILE env ∈ dirs s ->
  startup env s = (Return tt, s).
Proof.
  intros Hthere. destruct s as [fs ds np nr nc tr]. cbn [files dirs] in Hthere. run_startup.
  replace (bool_decide (is_Some (fs !! TOKEN_FILE env))
           || bool_decide (TOKEN_FILE env ∈ ds)) with true; [reflexivity|].
  symmetry. apply orb_true_iff.
  destruct Hthere; [left|right]; by apply bool_decide_eq_true_2.
Qed.

Lemma startup_absent (env : environment) (s : state) :
  files s !! TOKEN_FILE env = None -> TOKEN_FILE env ∉ dirs s ->
  startup env s
  = if writable env (TOKEN_FILE env) then
      (Return tt,
       {| files := <[TOKEN_FILE env := ""]> (files s); dirs := dirs s;
          prompts := prompts s; requests := requests s; readings := readings s;
          trace := (trace s ++ [Wrote (TOKEN_FILE env) ""])
                   ++ [Printed "📄 Created empty token.txt"] |})
    else
      (Throw (Error ("EACCES: permission denied, open '" +:+ TOKEN_FILE env +:+ "'") None), s).
Proof.
  intros Hfile Hdir. destruct s as [fs ds np nr nc tr]. cbn [files dirs] in Hfile, Hdir.
  run_startup.
  replace (bool_decide (is_Some (fs !! TOKEN_FILE env))
           || bool_decide (TOKEN_FILE env ∈ ds)) with false.
  - by destruct (writable env (TOKEN_FILE env)).
  - symmetry. apply orb_false_iff. split; apply bool_decide_eq_false_2; [|exact Hdir].
    rewrite Hfile. by intros [? ?].
Qed.

(** X12: the first lines of the script never prompt and never send a
    request. A token file that is there is left as it is and nothing is
    printed; a missing one is created empty; and after a start that
    returned, the file exists and a second start changes nothing. *)
Theorem startup_token_file (env : environment) (s : state) :
  let run := startup env s in
  let tf := TOKEN_FILE env in
  prompts (snd run) = prompts s
  /\ requested (trace (snd run)) = requested (trace s)
  /\ (is_Some (files s !! tf) \/ tf ∈ dirs s -> run = (Return tt, s))
  /\ (files s !! tf = None -> tf ∉ dirs s -> writable env tf = true ->
      fst run = Return tt /\ files (snd run) = <[tf := ""]> (files s)
      /\ trace (snd run) = trace s ++ [Wrote tf ""; Printed "📄 Created empty token.txt"])
  /\ (fst run = Return tt ->
      (is_Some (files (snd run) !! tf) \/ tf ∈ dirs (snd run))
      /\ startup env (snd run) = (Return tt, snd run)).
Proof.
  cbv zeta.
  destruct (decide (is_Some (files s !! TOKEN_FILE env) \/ TOKEN_FILE env ∈ dirs s))
    as [Hthere|Hnot].
  - rewrite (startup_present env s Hthere). cbn [fst snd].
    split; [reflexivity|]. split; [reflexivity|]. split; [reflexivity|].
    split; [|intros _; split; [exact Hthere|by apply startup_present]].
    intros Hfile Hdir _. destruct Hthere as [[c Hc]|Hin]; [congruence|by destruct Hdir].
  - assert (files s !! TOKEN_FILE env = None) as Hfile.
    { destruct (files s !! TOKEN_FILE env) eqn:Hc; [|reflexivity].
      destruct Hnot. left. by eexists. }
    assert (TOKEN_FILE env ∉ dirs s) as Hdir by (intros Hin; apply Hnot; by right).
    rewrite (startup_absent env s Hfile Hdir).
    destruct (writable env (TOKEN_FILE env)) eqn:Hw; cbn [fst snd prompts trace files dirs].
    + split; [reflexivity|]. split; [by traces|]. split; [by intros Hthere|].
      split; [intros _ _ _; by rewrite <- List.app_assoc|].
      intros _. assert (is_Some (<[TOKEN_FILE env := ""]> (files s) !! TOKEN_FILE env))
        as Hnow by (rewrite lookup_insert_eq; by eexists).
      split; [by left|]. apply startup_present. by left.
    + split; [reflexivity|]. split; [reflexivity|]. split; [by intros Hthere|].
      split; [intros _ _ ?; discriminate|intros ?; discriminate].
Qed.

Ltac token_post :=
  split; [first [apply trim_idempotent | reflexivity]|];
  eexists; split;
  [first [apply lookup_insert_eq | eassumption]
  |first [apply trim_idempotent | reflexivity | congruence]].

Ltac token_kept := try discriminate; simplify_eq; cbn [files]; token_post.

Ltac token_reused :=
  simplify_eq; split; [apply trim_idempotent|];
  eexists; split; [cbn [files]; eassumption|by rewrite trim_idempotent].

(** X13: on every path on which [loadToken] returns, the token it returns
    has no white space at either end and is what the token file holds,
    trimmed. *)
Theorem loadToken_token_file (env : environment) (s s' : state) (tok : string) :
  loadToken env s = (Return tok, s') ->
  trim tok = tok
  /\ exists content : string,
       files s' !! TOKEN_FILE env = Some content /\ trim content = tok.
Proof.
  destruct s as [fs ds np nr nc tr]. intros Hrun. run Hrun.
  destruct (fs !! TOKEN_FILE env) as [content|] eqn:Hfile.
  - change (bool_decide (is_Some (Some content))) with true in Hrun. run Hrun.
    rewrite Hfile in Hrun.
    destruct (Boolean (trim content)) eqn:Hsaved; run Hrun.
    + destruct (String.eqb (toLowerCase (operator env np)) "n") eqn:Hchoice; run Hrun.
      * destruct (writable env (TOKEN_FILE env)); run Hrun; token_kept.
      * destruct (trim content) as [|c r] eqn:Htrim; [discriminate Hsaved|]. run Hrun.
        rewrite <- Htrim in Hrun.
        branches Hrun. all: try token_kept.
        all: token_reused.
    + destruct (trim content) as [|c r] eqn:Htrim; [|discriminate Hsaved]. run Hrun.
      branches Hrun; token_kept.
  - change (bool_decide (is_Some None)) with false in Hrun. run Hrun.
    branches Hrun; token_kept.
Qed.

Lemma loadToken_returns (env : environment) (s : state) :
  (forall p, writable env p = true) ->
  (TOKEN_FILE env ∈ dirs s -> is_Some (files s !! TOKEN_FILE env)) ->
  exists (tok : string) (s' : state), loadToken env s = (Return tok, s').
Proof.
  intros Hw Hdir. destruct (loadToken env s) as [[tok|e] s'] eqn:Hrun; [by eauto|].
  exfalso. destruct s as [fs ds np nr nc tr]. cbn [files dirs] in Hdir. run Hrun.
  destruct (fs !! TOKEN_FILE env) as [content|] eqn:Hfile.
  - change (bool_decide (is_Some (Some content))) with true in Hrun. run Hrun.
    rewrite Hfile in Hrun.
    destruct (Boolean (trim content)) eqn:Hsaved; run Hrun.
    + destruct (String.eqb (toLowerCase (operator env np)) "n") eqn:Hchoice; run Hrun.
      * rewrite Hw in Hrun. discriminate Hrun.
      * destruct (trim content) as [|c r] eqn:Htrim; [discriminate Hsaved|]. run Hrun.
        rewrite ?Hw in Hrun. repeat (case_match; try discriminate; run Hrun; rewrite ?Hw in * ).
        all: congruence.
    + destruct (trim content) as [|c r] eqn:Htrim; [|discriminate Hsaved]. run Hrun.
      rewrite ?Hw in Hrun. repeat (case_match; try discriminate; run Hrun; rewrite ?Hw in * ).
      all: congruence.
  - change (bool_decide (is_Some None)) with false in Hrun. run Hrun.
    destruct (bool_decide (TOKEN_FILE env ∈ ds)) eqn:Hin; run Hrun.
    + apply bool_decide_eq_true in Hin. destruct (Hdir Hin) as [? ?]. discriminate.
    + rewrite ?Hw in Hrun. repeat (case_match; try discriminate; run Hrun; rewrite ?Hw in * ).
      all: congruence.
Qed.

Lemma main_run (env : environment) (s : state) :
  main env s
  = let a1 := operator env (prompts s) in
    let a2 := operator env (S (prompts s)) in
    match loadToken env
            {| files := files s; dirs := dirs s; prompts := S (S (prompts s));
               requests := requests s; readings := readings s;
               trace := (trace s ++ [Asked "Enter song IDs (comma-separated): " a1])
                        ++ [Asked "Enter file type (lrc or srt, default lrc): " a2] |} with
    | (Return tok, s3) => processSongs (songIds_of a1) (fileType_of a2) tok env s3
    | (Throw e, s3) => (Throw e, s3)
    end.
Proof. reflexivity. Qed.

Lemma script_run (env : environment) (s : state) :
  script env s
  = match startup env s with
    | (Return _, s0) => main env s0
    | (Throw e, s0) => (Throw e, s0)
    end.
Proof. reflexivity. Qed.

(** What [startup] leaves behind when it returns. *)
Lemma startup_effect (env : environment) (s : state) :
  (forall p, writable env p = true) \/ is_Some (files s !! TOKEN_FILE env)
  \/ TOKEN_FILE env ∈ dirs s ->
  exists s0 : state,
    startup env s = (Return tt, s0)
    /\ prompts s0 = prompts s
    /\ requested (trace s0) = requested (trace s)
    /\ dirs s0 = dirs s
    /\ (is_Some (files s !! TOKEN_FILE env) -> s0 = s)
    /\ (TOKEN_FILE env ∉ dirs s -> is_Some (files s0 !! TOKEN_FILE env)).
Proof.
  intros Hcan.
  destruct (decide (is_Some (files s !! TOKEN_FILE env) \/ TOKEN_FILE env ∈ dirs s))
    as [Hthere|Hnot].
  - exists s. rewrite (startup_present env s Hthere).
    repeat split; try reflexivity. intros Hdir. by destruct Hthere.
  - assert (files s !! TOKEN_FILE env = None) as Hfile.
    { destruct (files s !! TOKEN_FILE env) eqn:Hc; [|reflexivity].
      destruct Hnot. left. by eexists. }
    assert (TOKEN_FILE env ∉ dirs s) as Hdir by (intros Hin; apply Hnot; by right).
    destruct Hcan as [Hw|Hthere]; [|by destruct Hnot].
    rewrite (startup_absent env s Hfile Hdir), Hw. eexists. split; [reflexivity|].
    cbn [prompts trace dirs files]. split; [reflexivity|]. split; [by traces|].
    split; [reflexivity|]. split; [rewrite Hfile; by intros [? ?]|].
    intros _. rewrite lookup_insert_eq. by eexists.
Qed.

(** X16: when the file system lets the script write and the token path is
    not a directory, the whole script returns, and the last thing it prints
    is the final message. *)
Theorem script_completes (env : environment) (s : state) :
  (forall p, writable env p = true) ->
  (TOKEN_FILE env ∈ dirs s -> is_Some (files s !! TOKEN_FILE env)) ->
  fst (script env s) = Return tt
  /\ exists before : list event, trace (snd (script env s)) = before ++ [all_done].
Proof.
  intros Hw Hdir. rewrite script_run.
  destruct (startup_effect env s (or_introl Hw)) as (s0 & -> & _ & _ & Hdirs & Hsame & Hnew).
  rewrite main_run. cbv zeta.
  edestruct (loadToken_returns env) as (tok & s3 & ->); [exact Hw| |].
  - cbn [files dirs]. rewrite Hdirs. intros Hin.
    destruct (files s !! TOKEN_FILE env) eqn:Hfile.
    + rewrite Hsame by (by eexists). rewrite Hfile. by eexists.
    + by destruct (Hdir Hin) as [? ?].
  - rewrite processSongs_unfold. cbn [fst snd]. split; [reflexivity|].
    by eexists.
Qed.

Lemma startup_then_asks (env : environment) (s s0 : state) :
  startup env s = (Return tt, s0) ->
  (startup;; ask "Enter song IDs (comma-separated): ";;
   ask "Enter file type (lrc or srt, default lrc): ") env s
  = (Return (operator env (S (prompts s0))),
     {| files := files s0; dirs := dirs s0; prompts := S (S (prompts s0));
        requests := requests s0; readings := readings s0;
        trace := (trace s0 ++ [Asked "Enter song IDs (comma-separated): "
                                     (operator env (prompts s0))])
                 ++ [Asked "Enter file type (lrc or srt, default lrc): "
                           (operator env (S (prompts s0)))] |}).
Proof.
  intros Hstart.
  change ((startup;; ask "Enter song IDs (comma-separated): ";;
           ask "Enter file type (lrc or srt, default lrc): ") env s)
    with (match startup env s with
          | (Return _, s') =>
              (ask "Enter song IDs (comma-separated): ";;
               ask "Enter file type (lrc or srt, default lrc): ") env s'
          | (Throw e, s') => (Throw e, s')
          end).
  rewrite Hstart. reflexivity.
Qed.

Lemma startup_quiet (env : environment) (s s0 : state) :
  startup env s = (Return tt, s0) ->
  prompts s0 = prompts s /\ requests s0 = requests s
  /\ requested (trace s0) = requested (trace s)
  /\ exists new0, written (trace s0) = written (trace s) ++ new0
                  /\ Forall (fun p => p = TOKEN_FILE env) new0.
Proof.
  intros Hstart.
  destruct (decide (is_Some (files s !! TOKEN_FILE env) \/ TOKEN_FILE env ∈ dirs s))
    as [Hthere|Hnot].
  - rewrite (startup_present env s Hthere) in Hstart. simplify_eq.
    repeat (split; [reflexivity|]). exists []. by rewrite List.app_nil_r.
  - assert (files s !! TOKEN_FILE env = None) as Hfile.
    { destruct (files s !! TOKEN_FILE env) eqn:Hc; [|reflexivity].
      destruct Hnot. left. by eexists. }
    assert (TOKEN_FILE env ∉ dirs s) as Hdir by (intros Hin; apply Hnot; by right).
    rewrite (startup_absent env s Hfile Hdir) in Hstart.
    destruct (writable env (TOKEN_FILE env)); simplify_eq.
    cbn [prompts requests trace]. repeat (split; [reflexivity|]). split; [by traces|].
    exists [TOKEN_FILE env]. split; [by traces|by repeat constructor].
Qed.

(** X17: the requests of a run of the whole script that returns. The
    script starts, asks its two questions and calls [loadToken], which
    returns a token. The requests are at most one probe, for [dummy-check],
    and then the identifiers typed at the first prompt, in the order typed,
    each at most once and all with the token [loadToken] returned. The loop
    stops at the first of them answered with a 401 and nowhere else. *)
Theorem script_requests (env : environment) (s : state) :
  fst (script env s) = Return tt ->
  let songIds := songIds_of (operator env (prompts s)) in
  exists (s2 s3 : state) (tok : string) (probe : list (string * string)) (n : nat),
    (startup;; ask "Enter song IDs (comma-separated): ";;
     ask "Enter file type (lrc or srt, default lrc): ") env s
    = (Return (operator env (S (prompts s))), s2)
    /\ loadToken env s2 = (Return tok, s3)
    /\ requested (trace (snd (script env s)))
       = requested (trace s) ++ probe
         ++ map (fun id => (apiUrl_of id, tok)) (take n songIds)
    /\ (probe = [] \/ exists t, probe = [(apiUrl_of "dummy-check", t)])
    /\ (n <= length songIds)%nat
    /\ (forall (i : nat) (id : string),
          (S i < n)%nat -> songIds !! i = Some id ->
          ~ refused env (requests s3 + i) id tok)
    /\ ((n < length songIds)%nat ->
        exists (m : nat) (id : string),
          n = S m /\ songIds !! m = Some id /\ refused env (requests s3 + m) id tok)
    /\ (never_refused env -> n = length songIds).
Proof.
  cbv zeta. rewrite script_run.
  destruct (startup env s) as [[[]|e] s0] eqn:Hstart; [|discriminate].
  destruct (startup_quiet env s s0 Hstart) as (Hp & _ & Hr & _).
  rewrite (startup_then_asks env s s0 Hstart), main_run. cbv zeta. rewrite Hp.
  match goal with |- context [loadToken env ?st] => set (s2 := st) end.
  destruct (loadToken env s2) as [[tok|e] s3] eqn:Hload; [|discriminate].
  intros _. pose proof (loadToken_requests env s2 s3 tok Hload) as Hprobe.
  rewrite processSongs_unfold. cbn [snd].
  destruct (for_of_effect env (fileType_of (operator env (S (prompts s)))) tok
              (songIds_of (operator env (prompts s))) s3)
    as (_ & _ & _ & (n & Hn & _ & Hreq & Hbefore & Hstop) & _).
  assert (requested (trace s2) = requested (trace s)) as Hr2.
  { subst s2. cbn [trace]. rewrite !requested_app, Hr. cbn [requested flat_map].
    by rewrite !List.app_nil_r. }
  assert (exists probe, requested (trace s3) = requested (trace s) ++ probe
                        /\ (probe = [] \/ exists t, probe = [(apiUrl_of "dummy-check", t)]))
    as (probe & Hs3 & Hshape).
  { destruct (declines env s2).
    - exists []. rewrite List.app_nil_r. split; [congruence|by left].
    - destruct Hprobe as [t Ht]. exists [(apiUrl_of "dummy-check", t)].
      split; [congruence|right; by eexists]. }
  exists s2, s3, tok, probe, n. split; [reflexivity|]. split; [exact Hload|].
  split; [|split; [exact Hshape|split; [exact Hn|split; [exact Hbefore|split; [exact Hstop|]]]]].
  - unfold record. cbn [trace]. rewrite requested_app, Hreq, Hs3.
    cbn [requested flat_map all_done]. by rewrite List.app_nil_r, <- List.app_assoc.
  - by apply (never_refused_all env n _ (requests s3) tok).
Qed.

(** ** The files of a run *)






Lemma script_completes_witness :
  fst (script typical (fresh {[ "/home/user/token.txt" := "saved-token" ]})) = Return tt.
Proof.
  apply (script_completes typical (fresh {[ "/home/user/token.txt" := "saved-token" ]})).
  - intros p. reflexivity.
  - intros Hin. by apply not_elem_of_empty in Hin.
Defined.

Lemma script_requests_witness :
  exists (s2 s3 : state) (tok : string) (probe : list (string * string)) (n : nat),
    (startup;; ask "Enter song IDs (comma-separated): ";;
     ask "Enter file type (lrc or srt, default lrc): ")
      typical (fresh {[ "/home/user/token.txt" := "saved-token" ]})
    = (Return "SRT", s2)
    /\ loadToken typical s2 = (Return tok, s3)
    /\ requested (trace (snd (script typical (fresh {[ "/home/user/token.txt" := "saved-token" ]}))))
       = [] ++ probe
         ++ map (fun id => (apiUrl_of id, tok)) (take n (songIds_of "one, two ,,three"))
    /\ (probe = [] \/ exists t, probe = [(apiUrl_of "dummy-check", t)])
    /\ (n <= length (songIds_of "one, two ,,three"))%nat
    /\ (forall (i : nat) (id : string),
          (S i < n)%nat -> songIds_of "one, two ,,three" !! i = Some id ->
          ~ refused typical (requests s3 + i) id tok)
    /\ ((n < length (songIds_of "one, two ,,three"))%nat ->
        exists (m : nat) (id : string),
          n = S m /\ songIds_of "one, two ,,three" !! m = Some id
          /\ refused typical (requests s3 + m) id tok)
    /\ (never_refused typical -> n = length (songIds_of "one, two ,,three")).
Proof.
  apply (script_requests typical (fresh {[ "/home/user/token.txt" := "saved-token" ]})).
  vm_compute. reflexivity.
Defined.

Lemma loadToken_token_file_witness :
  trim "fresh-token" = "fresh-token"
  /\ exists content : string,
       files (snd (loadToken declining (fresh {[ "/home/user/token.txt" := "stale-token" ]})))
       !! TOKEN_FILE declining = Some content
       /\ trim content = "fresh-token".
Proof.
  apply (loadToken_token_file declining
           (fresh {[ "/home/user/token.txt" := "stale-token" ]})
           (snd (loadToken declining (fresh {[ "/home/user/token.txt" := "stale-token" ]})))
           "fresh-token").
  vm_compute. reflexivity.
Defined.
